(** * Vocabulary checking of the writing-support page

    A shallow embedding of [script.js]: the label mapping table
    [posMapping], the label matcher [isPosAllowed], the per-term validity
    decision and the document loop of [checkContent], the HTML escaping
    helper [escapeHtml] and the word-list loader [loadWordList], followed
    by [populateWordlistSelector], [debounce] and the two event listeners.

    Modelling conventions.
    - A JavaScript string is a [string] (its UTF-8 bytes).  The characters
      escaped for HTML are ASCII, so a byte compares like the character it
      encodes; the white space removed by [trim] is listed by its UTF-8
      encoding.
    - An array of strings is a [list string]; [Array.prototype.includes] is
      [includes], [Array.prototype.some] is [existsb].
    - The two objects used as dictionaries, [posMapping] and
      [currentWordList], are plain objects: a finite map holds their own
      properties (each an array of strings) and a property read goes on to
      [Object.prototype] when the name is not an own property, see
      [getProperty].
    - A [TypeError] raised by the script is the result [Throw].
    - The tagger (compromise) and the built-in
      [String.prototype.toLowerCase] are taken as given and passed around
      as records, see [compromise] and [engine]. *)

From Stdlib Require Import Ascii String.
From stdpp Require Import gmap strings list fin_maps.

Open Scope string_scope.

(** ** Strings, arrays and objects as the script uses them *)

Module Js.

(** Lower-casing on the ASCII range: [A]..[Z] move to [a]..[z], every
    other byte is kept. *)
Definition lowerChar (c : ascii) : ascii :=
  let n := nat_of_ascii c in
  if ((65 <=? n) && (n <=? 90))%nat then ascii_of_nat (n + 32) else c.

Fixpoint asciiLower (s : string) : string :=
  match s with
  | EmptyString => EmptyString
  | String c rest => String (lowerChar c) (asciiLower rest)
  end.

(** Texts made of ASCII characters only. *)
Definition isAsciiChar (c : ascii) : bool := (nat_of_ascii c <? 128)%nat.

Fixpoint isAscii (s : string) : bool :=
  match s with
  | EmptyString => true
  | String c rest => isAsciiChar c && isAscii rest
  end.

(** White space and line terminators of one byte: tab, line feed, vertical
    tab, form feed, carriage return and space. *)
Definition isSpaceChar (c : ascii) : bool :=
  let n := nat_of_ascii c in
  (((9 <=? n) && (n <=? 13)) || (n =? 32))%nat.

(** Those of three bytes: U+1680, U+2000 to U+200A, U+2028, U+2029,
    U+202F, U+205F, U+3000 and U+FEFF. *)
Definition isSpace3 (a b c : nat) : bool :=
  (((a =? 225) && (b =? 154) && (c =? 128))
   || ((a =? 226) && (b =? 128)
       && (((128 <=? c) && (c <=? 138)) || (c =? 168) || (c =? 169) || (c =? 175)))
   || ((a =? 226) && (b =? 129) && (c =? 159))
   || ((a =? 227) && (b =? 128) && (c =? 128))
   || ((a =? 239) && (b =? 187) && (c =? 191)))%nat.

(** [!text.trim()]: the trimmed text is the empty string exactly when the
    text is a sequence of white space and line terminators; the one of two
    bytes is U+00A0. *)
Fixpoint trimIsEmpty (s : string) : bool :=
  match s with
  | EmptyString => true
  | String a rest =>
      if isSpaceChar a then trimIsEmpty rest
      else
        match rest with
        | EmptyString => false
        | String b rest2 =>
            if ((nat_of_ascii a =? 194) && (nat_of_ascii b =? 160))%nat
            then trimIsEmpty rest2
            else
              match rest2 with
              | EmptyString => false
              | String c rest3 =>
                  if isSpace3 (nat_of_ascii a) (nat_of_ascii b) (nat_of_ascii c)
                  then trimIsEmpty rest3
                  else false
              end
        end
  end.

(** [arr.includes(x)] on an array of strings. *)
Definition includes (arr : list string) (x : string) : bool :=
  existsb (String.eqb x) arr.

(** ['#' + tag] *)
Definition hashTag (tag : string) : string := String "#" tag.

(** The outcome of a piece of script: a value, or a [TypeError] that
    nothing has caught yet. *)
Inductive result (A : Type) : Type :=
  | Ok (a : A)
  | Throw.

Arguments Ok {A} a.
Arguments Throw {A}.

(** What a property read on one of the two dictionaries yields: the array
    stored under an own property, a function or object inherited from
    [Object.prototype], or [undefined]. *)
Inductive value :=
  | Array (items : list string)
  | Inherited
  | Undefined.

(** The property names of [Object.prototype]. *)
Definition objectPrototypeNames : list string :=
  [ "constructor"; "hasOwnProperty"; "isPrototypeOf"; "propertyIsEnumerable";
    "toLocaleString"; "toString"; "valueOf"; "__proto__";
    "__defineGetter__"; "__defineSetter__"; "__lookupGetter__";
    "__lookupSetter__" ].

(** [o[k]] on a plain object whose own properties are [own]. *)
Definition getProperty (own : gmap string (list string)) (k : string) : value :=
  match own !! k with
  | Some items => Array items
  | None => if includes objectPrototypeNames k then Inherited else Undefined
  end.

(** [if (v)]: arrays, functions and objects are truthy. *)
Definition truthy (v : value) : bool :=
  match v with
  | Undefined => false
  | _ => true
  end.

End Js.

Import Js.

(** ** Data *)

(** One element of [doc.terms().json()], reduced to what [checkContent]
    reads: [termData.text] and [Object.keys(termData.tags)]. *)
Record term := Term { text : string; tags : list string }.

(** The tagger.  [terms] is [compromise(text).terms().json()] and
    [normalizeText] is [compromise(wordText).normalize({lemma: true}).text()]. *)
Record compromise := Compromise {
  terms : string → list term;
  normalizeText : string → string
}.

(** The built-in [String.prototype.toLowerCase], with two facts about it:
    on an ASCII text it is the lower-casing of [A]..[Z], and only an ASCII
    text is lower-cased to [to]. *)
Record engine := Engine {
  toLowerCase : string → string;
  toLowerCase_ascii : ∀ s, isAscii s = true → toLowerCase s = asciiLower s;
  toLowerCase_to : ∀ s, toLowerCase s = "to" → isAscii s = true
}.

(** [posMapping]: vocabulary label to the tagger tags it stands for, each
    tag written with its leading [#]. *)
Definition posMapping : gmap string (list string) :=
  list_to_map
    [ ("adverb", ["#Adverb"]);
      ("verb", ["#Verb"]);
      ("adjective", ["#Adjective"]);
      ("noun", ["#Noun"]);
      ("preposition", ["#Preposition"]);
      ("conjunction", ["#Conjunction"]);
      ("determiner", ["#Determiner"]);
      ("pronoun", ["#Pronoun"]);
      ("be-verb", ["#Copula"]);
      ("modal auxi", ["#Modal"]);
      ("interjection", ["#Interjection"]);
      ("do-verb", ["#Verb"; "#Auxiliary"]);
      ("number", ["#Value"; "#NumericValue"; "#Cardinal"; "#Ordinal"]);
      ("have-verb", ["#Verb"; "#Auxiliary"]);
      ("infinitive-to", ["#Infinitive"]) ].

(** The page: the state variable [currentWordList] (its own properties)
    and the DOM properties the script reads or writes.  [wordCountShown] is
    the number printed after the fixed caption of the word-count element;
    [alerts] collects the file paths of the load-error dialogs, latest
    first. *)
Record page := Page {
  currentWordList : gmap string (list string);
  editorValue : string;
  highlightHtml : string;
  wordCountShown : nat;
  loadingShown : bool;
  selectDisabled : bool;
  editorDisabled : bool;
  alerts : list string
}.

Definition setWordList (wl : gmap string (list string)) (p : page) : page :=
  Page wl (editorValue p) (highlightHtml p) (wordCountShown p)
       (loadingShown p) (selectDisabled p) (editorDisabled p) (alerts p).

Definition setDisplay (html : string) (count : nat) (p : page) : page :=
  Page (currentWordList p) (editorValue p) html count
       (loadingShown p) (selectDisabled p) (editorDisabled p) (alerts p).

Definition setLoading (busy : bool) (p : page) : page :=
  Page (currentWordList p) (editorValue p) (highlightHtml p) (wordCountShown p)
       busy busy busy (alerts p).

Definition pushAlert (filePath : string) (p : page) : page :=
  Page (currentWordList p) (editorValue p) (highlightHtml p) (wordCountShown p)
       (loadingShown p) (selectDisabled p) (editorDisabled p)
       (filePath :: alerts p).

Definition setEditorValue (v : string) (p : page) : page :=
  Page (currentWordList p) v (highlightHtml p) (wordCountShown p)
       (loadingShown p) (selectDisabled p) (editorDisabled p) (alerts p).

(** ** isPosAllowed *)

(** One turn of the loop of [isPosAllowed].  When [posMapping[userLabel]]
    is an array, some tag of the term, prefixed with [#], has to be in it.
    When it is inherited from [Object.prototype] it is truthy and has no
    [includes]: the callback of [some] throws on the first tag.  When it is
    [undefined] the label is passed over. *)
Definition labelMatches (compromiseTags : list string) (userLabel : string)
    : result bool :=
  match getProperty posMapping userLabel with
  | Array targetCompromiseTags =>
      Ok (existsb (λ tag, includes targetCompromiseTags (hashTag tag)) compromiseTags)
  | Inherited =>
      match compromiseTags with
      | [] => Ok false
      | _ :: _ => Throw
      end
  | Undefined => Ok false
  end.

(** The [for ... of] loop over an array, with its early [return true]. *)
Fixpoint isPosAllowedOver (compromiseTags labels : list string) : result bool :=
  match labels with
  | [] => Ok false
  | userLabel :: rest =>
      match labelMatches compromiseTags userLabel with
      | Ok true => Ok true
      | Ok false => isPosAllowedOver compromiseTags rest
      | Throw => Throw
      end
  end.

(** [isPosAllowed]: only an array can be iterated. *)
Definition isPosAllowed (compromiseTags : list string)
    (allowedUserPosLabels : value) : result bool :=
  match allowedUserPosLabels with
  | Array labels => isPosAllowedOver compromiseTags labels
  | _ => Throw
  end.

(** ** escapeHtml *)

Definition quoteChar : ascii := ascii_of_nat 34.
Definition aposChar : ascii := ascii_of_nat 39.

(** The replacement of one character: the [map] object of [escapeHtml]
    for the five characters of the pattern, the character itself otherwise. *)
Definition escapeChar (c : ascii) : string :=
  if Ascii.eqb c "&" then "&amp;"
  else if Ascii.eqb c "<" then "&lt;"
  else if Ascii.eqb c ">" then "&gt;"
  else if Ascii.eqb c quoteChar then "&quot;"
  else if Ascii.eqb c aposChar then "&#039;"
  else String c EmptyString.

Fixpoint escapeHtml (s : string) : string :=
  match s with
  | EmptyString => EmptyString
  | String c rest => escapeChar c +:+ escapeHtml rest
  end.

(** The template literal that wraps an invalid word. *)
Definition invalidSpan (inner : string) : string :=
  "<span class=" +:+ String quoteChar "invalid-word" +:+ String quoteChar ">"
  +:+ inner +:+ "</span>".

(** ** checkContent *)

(** The condition written twice in the loop body: the term carries the
    [Word] tag and neither [Punctuation] nor [Whitespace]. *)
Definition isWord (t : term) : bool :=
  includes (tags t) "Word"
  && negb (includes (tags t) "Punctuation")
  && negb (includes (tags t) "Whitespace").

(** [compromise(wordText).normalize({lemma: true}).text() || wordText.toLowerCase()]:
    the empty string is the only falsy string. *)
Definition termLemma (js : engine) (nlp : compromise) (wordText : string) : string :=
  match normalizeText nlp wordText with
  | EmptyString => toLowerCase js wordText
  | normalized => normalized
  end.

(** The rule for the word [to].  On a value that is not an array,
    [includes] is missing and calling it throws; the call is reached only
    when the tag test before [&&] holds. *)
Definition toIsValid (t : term) (allowedUserPosLabels : value) : result bool :=
  let isInfTo := includes (tags t) "Infinitive" in
  let isPrep := includes (tags t) "Preposition" in
  match allowedUserPosLabels with
  | Array labels =>
      Ok (if isInfTo && includes labels "infinitive-to" then true
          else if isPrep && includes labels "preposition" then true
          else false)
  | _ =>
      if isInfTo then Throw
      else if isPrep then Throw
      else Ok false
  end.

Section TermCheck.

(** The function called on the generic path; [checkContent] calls
    [isPosAllowed]. *)
Variable posCheck : list string → value → result bool.

(** What follows the look-up [currentWordList[lemma]]. *)
Definition judgeFound (js : engine) (t : term) (allowedUserPosLabels : value)
    : result bool :=
  if truthy allowedUserPosLabels
  then
    if String.eqb (toLowerCase js (text t)) "to"
    then toIsValid t allowedUserPosLabels
    else posCheck (tags t) allowedUserPosLabels
  else Ok false.

(** The value of [isValid] at the end of the loop body, unless the body
    throws. *)
Definition termIsValidVia (js : engine) (nlp : compromise)
    (wordList : gmap string (list string)) (t : term) : result bool :=
  if isWord t
  then judgeFound js t (getProperty wordList (termLemma js nlp (text t)))
  else Ok true.

End TermCheck.

Definition termIsValid
    : engine → compromise → gmap string (list string) → term → result bool :=
  termIsValidVia isPosAllowed.

(** The piece of HTML appended for a term. *)
Definition termHtml (wordText : string) (isValid : bool) : string :=
  if isValid then escapeHtml wordText else invalidSpan (escapeHtml wordText).

(** One run of the [forEach] callback on the pair [(wordCount, htmlOutput)]. *)
Definition termStep (js : engine) (nlp : compromise)
    (wordList : gmap string (list string))
    (acc : nat * string) (t : term) : result (nat * string) :=
  let wordCount := if isWord t then S (fst acc) else fst acc in
  match termIsValid js nlp wordList t with
  | Ok isValid => Ok (wordCount, snd acc +:+ termHtml (text t) isValid)
  | Throw => Throw
  end.

(** [terms.forEach(...)]: an exception in the callback ends the loop. *)
Fixpoint forEachTerm (js : engine) (nlp : compromise)
    (wordList : gmap string (list string))
    (ts : list term) (acc : nat * string) : result (nat * string) :=
  match ts with
  | [] => Ok acc
  | t :: rest =>
      match termStep js nlp wordList acc t with
      | Ok acc' => forEachTerm js nlp wordList rest acc'
      | Throw => Throw
      end
  end.

Definition checkTerms (js : engine) (nlp : compromise)
    (wordList : gmap string (list string)) (ts : list term) : result (nat * string) :=
  forEachTerm js nlp wordList ts (0, "").

(** [checkContent]: the page it leaves, or the exception of the loop, in
    which case nothing has been written. *)
Definition checkContent (js : engine) (nlp : compromise) (p : page) : result page :=
  if trimIsEmpty (editorValue p) then Ok (setDisplay "" 0 p)
  else
    match checkTerms js nlp (currentWordList p) (terms nlp (editorValue p)) with
    | Ok counted => Ok (setDisplay (snd counted) (fst counted) p)
    | Throw => Throw
    end.

(** [checkContent] called from a timer: an exception is reported by the
    browser and the page stays as it was. *)
Definition afterCheck (js : engine) (nlp : compromise) (p : page) : page :=
  match checkContent js nlp p with
  | Ok checked => checked
  | Throw => p
  end.

(** ** loadWordList *)

(** How [fetch] and [response.json()] settle: the request is rejected, or a
    response arrives with its [ok] flag and, when the body parses, the
    table it holds. *)
Inductive fetched :=
  | FetchRejected
  | Responded (ok : bool) (body : option (gmap string (list string))).

(** The part before the first [await]. *)
Definition loadWordList_begin (p : page) : page := setLoading true p.

(** The part after it: [try], [catch] and [finally].  [checkContent] runs
    inside the [try], after the assignment of the new list: when it throws,
    the [catch] block runs as for a failed request. *)
Definition loadWordList_settle (js : engine) (nlp : compromise) (filePath : string)
    (r : fetched) (p : page) : page :=
  let after :=
    match r with
    | Responded true (Some wordList) =>
        match checkContent js nlp (setWordList wordList p) with
        | Ok checked => checked
        | Throw => setWordList ∅ (pushAlert filePath (setWordList wordList p))
        end
    | _ => setWordList ∅ (pushAlert filePath p)
    end in
  setLoading false after.

Definition loadWordList (js : engine) (nlp : compromise) (filePath : string)
    (r : fetched) (p : page) : page :=
  loadWordList_settle js nlp filePath r (loadWordList_begin p).

(** ** Configuration, selector and scheduling *)

(** An entry of [WORDLIST_CONFIG]. *)
Record listInfo := ListInfo { name : string; file : string }.

Definition WORDLIST_CONFIG : list listInfo :=
  [ ListInfo "Level 1(A1 only)" "wordlists/level1.json";
    ListInfo "Level 2(A1-A2)" "wordlists/level2.json";
    ListInfo "Level 3(A1-B1)" "wordlists/level3.json";
    ListInfo "Level 4(A1-B2)" "wordlists/level4.json" ].

Definition DEBOUNCE_DELAY : nat := 750.

(** An [<option>] element of the selector: its [value] and its
    [textContent]. *)
Record optionElement := OptionElement { optionValue : string; textContent : string }.

(** [populateWordlistSelector] over a configuration array: the children of
    the selector are dropped ([innerHTML = '']) and one option is appended
    for each entry.  The script runs it on [WORDLIST_CONFIG]. *)
Definition populateFrom (config : list listInfo)
    (children : list optionElement) : list optionElement :=
  fold_left (λ kids info, kids ++ [OptionElement (file info) (name info)])%list
            config [].

Definition populateWordlistSelector : list optionElement → list optionElement :=
  populateFrom WORDLIST_CONFIG.

(** The window: the page, the timers of [setTimeout] that are still
    pending (handle to due time and callback), the next fresh handle, the
    script variable [debounceTimer] and the time in milliseconds.  A
    callback acts on the page, as [checkContent] does. *)
Record window := Window {
  doc : page;
  timers : gmap nat (nat * (page → page));
  nextHandle : nat;
  debounceTimer : option nat;
  clock : nat
}.

(** [clearTimeout(id)]: [null] and handles that are not pending are
    ignored. *)
Definition clearTimeout (id : option nat)
    (pending : gmap nat (nat * (page → page))) : gmap nat (nat * (page → page)) :=
  match id with
  | Some handle => delete handle pending
  | None => pending
  end.

(** The function returned by [debounce(func, delay)], called once. *)
Definition debounce (func : page → page) (delay : nat) (w : window) : window :=
  let pending := clearTimeout (debounceTimer w) (timers w) in
  Window (doc w)
         (<[nextHandle w := (clock w + delay, func)]> pending)
         (S (nextHandle w))
         (Some (nextHandle w))
         (clock w).

Definition onPage (f : page → page) (w : window) : window :=
  Window (f (doc w)) (timers w) (nextHandle w) (debounceTimer w) (clock w).

(** What can happen to the window: the user edits the text (the [input]
    listener runs the debounced [checkContent]), the user picks a list (the
    [change] listener starts [loadWordList]), the request of a load
    settles, time passes, the browser runs a timer that is due. *)
Inductive event :=
  | Input (newValue : string)
  | Change (filePath : string)
  | Settle (filePath : string) (r : fetched)
  | Elapse (ms : nat)
  | Fire (handle : nat).

Definition step (js : engine) (nlp : compromise) (e : event) (w : window) : window :=
  match e with
  | Input newValue =>
      debounce (afterCheck js nlp) DEBOUNCE_DELAY (onPage (setEditorValue newValue) w)
  | Change _ => onPage loadWordList_begin w
  | Settle filePath r => onPage (loadWordList_settle js nlp filePath r) w
  | Elapse ms =>
      Window (doc w) (timers w) (nextHandle w) (debounceTimer w) (clock w + ms)
  | Fire handle =>
      match timers w !! handle with
      | Some (due, callback) =>
          if (due <=? clock w)%nat
          then Window (callback (doc w)) (delete handle (timers w))
                      (nextHandle w) (debounceTimer w) (clock w)
          else w
      | None => w
      end
  end.

Definition run (js : engine) (nlp : compromise) (es : list event) (w : window)
    : window :=
  fold_left (λ w e, step js nlp e w) es w.

(** The window when the script starts: no timer, [debounceTimer = null]. *)
Definition startWindow (p : page) : window := Window p ∅ 0 None 0.

(** Time that passes during a list of events. *)
Definition elapsed (es : list event) : nat :=
  foldr (λ e total, match e with Elapse ms => ms + total | _ => total end) 0 es.

(** Events of the timer kind: time passing and timers being run. *)
Definition isTimerEvent (e : event) : bool :=
  match e with
  | Elapse _ | Fire _ => true
  | _ => false
  end.

(** Events other than an edit. *)
Definition isNotInput (e : event) : bool :=
  match e with
  | Input _ => false
  | _ => true
  end.

(** At most one timer is pending, it runs [checkContent] and its handle is
    the one kept in [debounceTimer]. *)
Definition oneTimer (js : engine) (nlp : compromise) (w : window) : Prop :=
  timers w = ∅
  ∨ ∃ handle due, debounceTimer w = Some handle
                  ∧ timers w = {[ handle := (due, afterCheck js nlp) ]}.

(** ** Characters of a string *)

Fixpoint hasChar (c : ascii) (s : string) : bool :=
  match s with
  | EmptyString => false
  | String c' rest => Ascii.eqb c c' || hasChar c rest
  end.

(** The five characters [escapeHtml] replaces. *)
Definition isSpecial (c : ascii) : bool :=
  Ascii.eqb c "&" || Ascii.eqb c "<" || Ascii.eqb c ">"
  || Ascii.eqb c quoteChar || Ascii.eqb c aposChar.

(** The texts of the terms, one after another. *)
Definition joinTexts (ts : list term) : string :=
  foldr (λ t s, text t +:+ s) "" ts.

(** The pieces of HTML for the terms of a document, one after another,
    when [verdict] tells which terms are valid: the escaped text, put
    inside the span of invalid words when the term is invalid. *)
Definition joinPieces (verdict : term → bool) (ts : list term) : string :=
  foldr (λ t s,
           (if verdict t then escapeHtml (text t)
            else "<span class=" +:+ String quoteChar "invalid-word"
                 +:+ String quoteChar ">" +:+ escapeHtml (text t) +:+ "</span>")
           +:+ s)
        "" ts.

(** ** Sample engine, tagger and word list, used to run the model *)

Module Sample.

(** An engine for ASCII texts. *)
Definition asciiEngine : engine.
Proof.
  refine (Engine asciiLower (λ s _, eq_refl) _).
  intros [|c1 [|c2 [|c3 s]]]; simpl; try discriminate.
  intros H. injection H as H1 H2.
  assert (isAsciiChar c1 = true) as ->.
  { destruct c1 as [[] [] [] [] [] [] [] []]; vm_compute in H1;
      try discriminate; reflexivity. }
  assert (isAsciiChar c2 = true) as ->.
  { destruct c2 as [[] [] [] [] [] [] [] []]; vm_compute in H2;
      try discriminate; reflexivity. }
  reflexivity.
Defined.

(** A tagger that knows one sentence and one irregular verb form. *)
Definition tagger : compromise :=
  Compromise
    (λ s, if String.eqb s "I go home."
          then [ Term "I" ["Word"; "Pronoun"]; Term "go" ["Word"; "Verb"];
                 Term "home" ["Word"; "Noun"]; Term "." ["Punctuation"] ]
          else [])
    (λ w, if String.eqb w "went" then "go" else asciiLower w).

(** A tagger whose normalisation always yields the empty string. *)
Definition silent : compromise := Compromise (λ _, []) (λ _, "").

Definition wordList : gmap string (list string) :=
  list_to_map
    [ ("i", ["pronoun"]); ("go", ["verb"]); ("home", ["noun"]);
      ("to", ["infinitive-to"]); ("study", ["noun"; "verb"]) ].

Definition blank : page := Page ∅ "" "" 0 false false false [].

End Sample.

(** ** Arrays and the built-ins *)

Lemma includes_true (arr : list string) (x : string) :
  includes arr x = true ↔ x ∈ arr.
Proof.
  unfold includes. rewrite existsb_exists. split.
  - intros (y & Hin & Heq). apply String.eqb_eq in Heq. subst y.
    by apply list_elem_of_In.
  - intros Hin. exists x. split; [by apply list_elem_of_In | apply String.eqb_refl].
Qed.

Lemma includes_false (arr : list string) (x : string) :
  includes arr x = false ↔ x ∉ arr.
Proof.
  rewrite <- includes_true. destruct (includes arr x); split; congruence.
Qed.

Lemma includes_app (l m : list string) (x : string) :
  includes (l ++ m)%list x = includes l x || includes m x.
Proof. unfold includes. apply existsb_app. Qed.

Lemma bool_ext (a b : bool) : (a = true ↔ b = true) → a = b.
Proof. destruct a, b; intuition congruence. Qed.

Lemma includes_ext (a b : list string) (x : string) :
  (∀ y, y ∈ a ↔ y ∈ b) → includes a x = includes b x.
Proof. intros H. apply bool_ext. rewrite !includes_true. apply H. Qed.

Lemma asciiLower_to (s : string) :
  asciiLower s = "to" ↔ s = "to" ∨ s = "To" ∨ s = "tO" ∨ s = "TO".
Proof.
  split.
  - destruct s as [|c1 [|c2 [|c3 s]]]; simpl; try discriminate.
    intros H. injection H as H1 H2.
    assert (c1 = "t"%char ∨ c1 = "T"%char) as Hc1.
    { destruct c1 as [[] [] [] [] [] [] [] []]; vm_compute in H1;
        try discriminate; auto. }
    assert (c2 = "o"%char ∨ c2 = "O"%char) as Hc2.
    { destruct c2 as [[] [] [] [] [] [] [] []]; vm_compute in H2;
        try discriminate; auto. }
    destruct Hc1 as [-> | ->], Hc2 as [-> | ->]; auto.
  - intros [-> | [-> | [-> | ->]]]; reflexivity.
Qed.

(** The built-in lower-cases exactly four texts to [to]. *)
Lemma toLowerCase_to_iff (js : engine) (s : string) :
  toLowerCase js s = "to" ↔ s = "to" ∨ s = "To" ∨ s = "tO" ∨ s = "TO".
Proof.
  split.
  - intros H. apply asciiLower_to.
    by rewrite <- (toLowerCase_ascii js s (toLowerCase_to js s H)).
  - intros H. rewrite toLowerCase_ascii.
    + by apply asciiLower_to.
    + destruct H as [-> | [-> | [-> | ->]]]; reflexivity.
Qed.

(** ** Property reads *)

Lemma getProperty_own (own : gmap string (list string)) k items :
  own !! k = Some items → getProperty own k = Array items.
Proof. intros H. unfold getProperty. by rewrite H. Qed.

Lemma getProperty_Array (own : gmap string (list string)) k items :
  getProperty own k = Array items ↔ own !! k = Some items.
Proof.
  unfold getProperty. destruct (own !! k) as [v|].
  - split; congruence.
  - destruct (includes objectPrototypeNames k); split; discriminate.
Qed.

Lemma getProperty_Inherited (own : gmap string (list string)) k :
  getProperty own k = Inherited ↔ own !! k = None ∧ k ∈ objectPrototypeNames.
Proof.
  unfold getProperty. rewrite <- includes_true. destruct (own !! k) as [v|].
  - split; [discriminate | by intros [? _]].
  - destruct (includes objectPrototypeNames k); split; try done. by intros [_ ?].
Qed.

Lemma getProperty_Undefined (own : gmap string (list string)) k :
  getProperty own k = Undefined ↔ own !! k = None ∧ k ∉ objectPrototypeNames.
Proof.
  unfold getProperty. rewrite <- includes_false. destruct (own !! k) as [v|].
  - split; [discriminate | by intros [? _]].
  - destruct (includes objectPrototypeNames k); split; try done. by intros [_ ?].
Qed.

(** No own property of [posMapping] hides a name of [Object.prototype]. *)
Lemma posMapping_Inherited (userLabel : string) :
  getProperty posMapping userLabel = Inherited ↔ userLabel ∈ objectPrototypeNames.
Proof.
  rewrite getProperty_Inherited. split; [by intros [_ ?]|].
  intros Hin. split; [|done].
  apply list_elem_of_In in Hin. simpl in Hin.
  repeat (destruct Hin as [<- | Hin]; [reflexivity|]). destruct Hin.
Qed.

(** ** The label matcher *)

Lemma labelMatches_true (compromiseTags : list string) (userLabel : string) :
  labelMatches compromiseTags userLabel = Ok true ↔
  ∃ target tag, posMapping !! userLabel = Some target
                ∧ tag ∈ compromiseTags ∧ hashTag tag ∈ target.
Proof.
  unfold labelMatches.
  destruct (getProperty posMapping userLabel) as [target| |] eqn:E.
  - apply getProperty_Array in E. split.
    + intros H. injection H as H. apply existsb_exists in H as (tag & Hin & Hinc).
      exists target, tag. split; [done|].
      split; [by apply list_elem_of_In | by apply includes_true].
    + intros (target' & tag & Heq & Hin & Hinc).
      rewrite E in Heq. injection Heq as <-. f_equal. apply existsb_exists.
      exists tag. split; [by apply list_elem_of_In | by apply includes_true].
  - apply getProperty_Inherited in E as [E _]. split.
    + destruct compromiseTags; discriminate.
    + intros (? & ? & ? & _). congruence.
  - apply getProperty_Undefined in E as [E _]. split; [discriminate|].
    intros (? & ? & ? & _). congruence.
Qed.

Lemma labelMatches_Throw (compromiseTags : list string) (userLabel : string) :
  labelMatches compromiseTags userLabel = Throw ↔
  userLabel ∈ objectPrototypeNames ∧ compromiseTags ≠ [].
Proof.
  unfold labelMatches. rewrite <- posMapping_Inherited.
  destruct (getProperty posMapping userLabel); [split; [done | by intros [? _]]| |].
  - destruct compromiseTags; split; try done. by intros [_ ?].
  - split; [done | by intros [? _]].
Qed.

Lemma labelMatches_Undefined (compromiseTags : list string) (userLabel : string) :
  getProperty posMapping userLabel = Undefined →
  labelMatches compromiseTags userLabel = Ok false.
Proof. intros H. unfold labelMatches. by rewrite H. Qed.

Lemma isPosAllowedOver_app_true (compromiseTags l extra : list string) :
  isPosAllowedOver compromiseTags l = Ok true →
  isPosAllowedOver compromiseTags (l ++ extra)%list = Ok true.
Proof.
  induction l as [|userLabel rest IH]; simpl; [discriminate|].
  destruct (labelMatches compromiseTags userLabel) as [[]|]; auto.
Qed.

Lemma isPosAllowedOver_app_false (compromiseTags l extra : list string) :
  isPosAllowedOver compromiseTags l = Ok false →
  isPosAllowedOver compromiseTags (l ++ extra)%list
  = isPosAllowedOver compromiseTags extra.
Proof.
  induction l as [|userLabel rest IH]; simpl; [done|].
  destruct (labelMatches compromiseTags userLabel) as [[]|]; auto; discriminate.
Qed.

(** A match found by the loop is a match of one of the labels. *)
Lemma isPosAllowedOver_true (compromiseTags labels : list string) :
  isPosAllowedOver compromiseTags labels = Ok true →
  ∃ userLabel, userLabel ∈ labels ∧ labelMatches compromiseTags userLabel = Ok true.
Proof.
  induction labels as [|userLabel rest IH]; simpl; [discriminate|].
  destruct (labelMatches compromiseTags userLabel) as [[]|] eqn:E.
  - intros _. exists userLabel. split; [apply list_elem_of_here | done].
  - intros H. destruct (IH H) as (l & Hin & Hm).
    exists l. split; [by apply list_elem_of_further | done].
  - discriminate.
Qed.

(** When the loop answers [false], no label matched and none threw. *)
Lemma isPosAllowedOver_false (compromiseTags labels : list string) :
  isPosAllowedOver compromiseTags labels = Ok false ↔
  ∀ userLabel, userLabel ∈ labels → labelMatches compromiseTags userLabel = Ok false.
Proof.
  induction labels as [|userLabel rest IH]; simpl.
  - split; [|done]. intros _ l Hin. by apply elem_of_nil in Hin.
  - destruct (labelMatches compromiseTags userLabel) as [[]|] eqn:E.
    + split; [discriminate|]. intros H.
      specialize (H userLabel (list_elem_of_here _ _)). congruence.
    + rewrite IH. split.
      * intros H l Hin. apply elem_of_cons in Hin as [-> | Hin]; auto.
      * intros H l Hin. apply H. by apply list_elem_of_further.
    + split; [discriminate|]. intros H.
      specialize (H userLabel (list_elem_of_here _ _)). congruence.
Qed.

(** Without a label that throws, the loop answers, and it answers [true]
    exactly when some label matches. *)
Lemma isPosAllowedOver_safe (compromiseTags labels : list string) :
  (∀ userLabel, userLabel ∈ labels →
                labelMatches compromiseTags userLabel ≠ Throw) →
  ∃ b, isPosAllowedOver compromiseTags labels = Ok b
       ∧ (b = true ↔ ∃ userLabel, userLabel ∈ labels
                                  ∧ labelMatches compromiseTags userLabel = Ok true).
Proof.
  induction labels as [|userLabel rest IH]; intros Hsafe; simpl.
  - exists false. split; [done|]. split; [discriminate|].
    intros (l & Hin & _). by apply elem_of_nil in Hin.
  - destruct (labelMatches compromiseTags userLabel) as [[]|] eqn:E.
    + exists true. split; [done|]. split; [|done]. intros _.
      exists userLabel. split; [apply list_elem_of_here | done].
    + destruct IH as (b & Hb & Hiff).
      { intros l Hin. apply Hsafe. by apply list_elem_of_further. }
      exists b. split; [done|]. rewrite Hiff. split.
      * intros (l & Hin & Hm). exists l.
        split; [by apply list_elem_of_further | done].
      * intros (l & Hin & Hm). apply elem_of_cons in Hin as [-> | Hin];
          [congruence|]. by exists l.
    + exfalso. by apply (Hsafe userLabel (list_elem_of_here _ _)).
Qed.

(** ** The per-term decision *)

Lemma isWord_true (t : term) :
  isWord t = true ↔
  "Word" ∈ tags t ∧ ("Punctuation" ∉ tags t) ∧ ("Whitespace" ∉ tags t).
Proof.
  unfold isWord. rewrite !andb_true_iff, !negb_true_iff.
  rewrite includes_true, !includes_false. tauto.
Qed.

Lemma isWord_false (t : term) :
  isWord t = false ↔
  ("Word" ∉ tags t) ∨ "Punctuation" ∈ tags t ∨ "Whitespace" ∈ tags t.
Proof.
  unfold isWord. rewrite !andb_false_iff, !negb_false_iff.
  rewrite includes_false, !includes_true. tauto.
Qed.

Lemma toIsValid_Array (t : term) (allowed : list string) :
  ∃ b, toIsValid t (Array allowed) = Ok b
       ∧ (b = true ↔
          ("Infinitive" ∈ tags t ∧ "infinitive-to" ∈ allowed)
          ∨ ("Preposition" ∈ tags t ∧ "preposition" ∈ allowed)).
Proof.
  unfold toIsValid. eexists. split; [reflexivity|].
  rewrite <- !includes_true.
  destruct (includes (tags t) "Infinitive"), (includes allowed "infinitive-to"),
    (includes (tags t) "Preposition"), (includes allowed "preposition");
    simpl; intuition congruence.
Qed.

Lemma termIsValid_word posCheck js nlp (wordList : gmap string (list string)) t :
  isWord t = true →
  termIsValidVia posCheck js nlp wordList t
  = judgeFound posCheck js t (getProperty wordList (termLemma js nlp (text t))).
Proof. intros H. unfold termIsValidVia. by rewrite H. Qed.

(** The decision on a word whose lemma is an own property of the list. *)
Lemma termIsValid_own posCheck js nlp (wordList : gmap string (list string)) t allowed :
  isWord t = true →
  wordList !! termLemma js nlp (text t) = Some allowed →
  termIsValidVia posCheck js nlp wordList t
  = if String.eqb (toLowerCase js (text t)) "to"
    then toIsValid t (Array allowed)
    else posCheck (tags t) (Array allowed).
Proof.
  intros Hword Hfound. rewrite termIsValid_word by done.
  by rewrite (getProperty_own _ _ _ Hfound).
Qed.

(** ** The word [to] *)

(** C1.  A term that reaches the vocabulary look-up, whose text is [to]
    in any letter case and whose lemma is a key of the word list, is valid
    exactly when it is tagged [Infinitive] and [infinitive-to] is allowed,
    or tagged [Preposition] and [preposition] is allowed; otherwise it is
    invalid.  The generic matcher has no say: whatever function stands in
    its place, the decision is the same. *)
Theorem to_rule_decides js nlp (wordList : gmap string (list string)) t allowed :
  isWord t = true →
  toLowerCase js (text t) = "to" →
  wordList !! termLemma js nlp (text t) = Some allowed →
  let rule := ("Infinitive" ∈ tags t ∧ "infinitive-to" ∈ allowed)
              ∨ ("Preposition" ∈ tags t ∧ "preposition" ∈ allowed) in
  (termIsValid js nlp wordList t = Ok true ↔ rule)
  ∧ (termIsValid js nlp wordList t = Ok false ↔ ¬ rule)
  ∧ (∀ posCheck,
       termIsValidVia posCheck js nlp wordList t = termIsValid js nlp wordList t).
Proof.
  intros Hword Hto Hfound rule.
  assert (∀ posCheck,
            termIsValidVia posCheck js nlp wordList t = toIsValid t (Array allowed))
    as Hvia.
  { intros posCheck. rewrite (termIsValid_own _ _ _ _ _ allowed) by done.
    by rewrite Hto. }
  unfold termIsValid. rewrite (Hvia isPosAllowed).
  destruct (toIsValid_Array t allowed) as (b & Hb & Hrule). fold rule in Hrule.
  rewrite Hb. split; [|split].
  - rewrite <- Hrule. split; congruence.
  - rewrite <- Hrule. destruct b; split; congruence.
  - intros posCheck. by rewrite Hvia.
Qed.

Lemma to_rule_decides_witness :
  let t := Term "To" ["Word"; "Infinitive"] in
  isWord t = true
  ∧ termIsValid Sample.asciiEngine Sample.tagger Sample.wordList t = Ok true
  ∧ termIsValid Sample.asciiEngine Sample.tagger Sample.wordList
      (Term "to" ["Word"; "Preposition"]) = Ok false.
Proof.
  split; [reflexivity|]. split.
  - destruct (to_rule_decides Sample.asciiEngine Sample.tagger Sample.wordList
                (Term "To" ["Word"; "Infinitive"]) ["infinitive-to"])
      as (Hvalid & _ & _); [reflexivity | reflexivity | reflexivity |].
    apply Hvalid. left. split; apply includes_true; reflexivity.
  - destruct (to_rule_decides Sample.asciiEngine Sample.tagger Sample.wordList
                (Term "to" ["Word"; "Preposition"]) ["infinitive-to"])
      as (_ & Hinvalid & _); [reflexivity | reflexivity | reflexivity |].
    apply Hinvalid.
    intros [[H _] | [_ H]]; apply includes_true in H; discriminate H.
Defined.

(** The three cases listed in the specification. *)
Example to_infinitive_allowed :
  termIsValid Sample.asciiEngine Sample.silent {[ "to" := ["infinitive-to"] ]}
    (Term "to" ["Word"; "Infinitive"]) = Ok true.
Proof. reflexivity. Qed.

Example to_preposition_not_allowed :
  termIsValid Sample.asciiEngine Sample.silent {[ "to" := ["infinitive-to"] ]}
    (Term "to" ["Word"; "Preposition"]) = Ok false.
Proof. reflexivity. Qed.

Example to_preposition_allowed :
  termIsValid Sample.asciiEngine Sample.silent {[ "to" := ["preposition"] ]}
    (Term "to" ["Word"; "Preposition"]) = Ok true.
Proof. reflexivity. Qed.

(** The generic matcher would accept this term; the rule for [to] does not. *)
Example to_verb_bypasses_matcher :
  isPosAllowed ["Word"; "Verb"] (Array ["verb"]) = Ok true
  ∧ termIsValid Sample.asciiEngine Sample.silent {[ "to" := ["verb"] ]}
      (Term "TO" ["Word"; "Verb"]) = Ok false.
Proof. split; reflexivity. Qed.

(** ** Every other word *)

(** C2.  The script at an entry that lists a name of [Object.prototype].
    The word [run], tagged [Noun], has the entry [constructor], [noun]: the
    label [noun] matches the tag, yet the decision is an exception, raised
    when the callback of [some] calls [includes] on the inherited
    [posMapping.constructor].  With the entry [toString] alone, where no
    label matches, the outcome is the exception as well, not [false]. *)
Theorem inherited_label_breaks_matcher :
  let run := Term "run" ["Word"; "Noun"] in
  isWord run = true
  ∧ toLowerCase Sample.asciiEngine (text run) ≠ "to"
  ∧ labelMatches (tags run) "noun" = Ok true
  ∧ termIsValid Sample.asciiEngine Sample.silent
      {[ "run" := ["constructor"; "noun"] ]} run = Throw
  ∧ termIsValid Sample.asciiEngine Sample.silent {[ "run" := ["toString"] ]} run
    = Throw.
Proof. repeat split; try reflexivity. discriminate. Qed.

(** ** Structural tokens and unknown lemmas *)

(** C3.  A term without the [Word] tag, or with the [Punctuation] or the
    [Whitespace] tag, is valid under every word list, the empty one
    included. *)
Theorem structural_term_valid js nlp (wordList : gmap string (list string)) t :
  ("Word" ∉ tags t) ∨ "Punctuation" ∈ tags t ∨ "Whitespace" ∈ tags t →
  termIsValid js nlp wordList t = Ok true ∧ termIsValid js nlp ∅ t = Ok true.
Proof.
  intros H. apply isWord_false in H.
  unfold termIsValid, termIsValidVia. by rewrite H.
Qed.

Lemma structural_term_valid_witness :
  "Punctuation" ∈ tags (Term "." ["Punctuation"])
  ∧ termIsValid Sample.asciiEngine Sample.tagger Sample.wordList
      (Term "." ["Punctuation"]) = Ok true
  ∧ termIsValid Sample.asciiEngine Sample.tagger ∅ (Term "." ["Punctuation"]) = Ok true.
Proof.
  assert ("Punctuation" ∈ tags (Term "." ["Punctuation"])) as Hin
    by (apply includes_true; reflexivity).
  split; [exact Hin|].
  apply (structural_term_valid Sample.asciiEngine Sample.tagger Sample.wordList
           (Term "." ["Punctuation"])).
  right. left. exact Hin.
Defined.

(** C4.  The script at a lemma that is a name of [Object.prototype].  The
    word [constructor], tagged [Noun], is not a key of the sample list nor
    of the empty list; [currentWordList.constructor] is then the inherited
    function, which is truthy, and [isPosAllowed] throws when it iterates
    over it: the term is not marked invalid. *)
Theorem inherited_lemma_throws :
  let word := Term "constructor" ["Word"; "Noun"] in
  isWord word = true
  ∧ termLemma Sample.asciiEngine Sample.tagger (text word) = "constructor"
  ∧ Sample.wordList !! "constructor" = None
  ∧ termIsValid Sample.asciiEngine Sample.tagger Sample.wordList word = Throw
  ∧ termIsValid Sample.asciiEngine Sample.tagger ∅ word = Throw.
Proof. repeat split; reflexivity. Qed.

(** ** The lemma used for the look-up *)

(** C9.  For a term that reaches the vocabulary look-up, the key looked up
    is the tagger's normalised text when that is not empty and the
    lower-cased surface text when it is; the decision reads the word list
    at that key only. *)
Theorem lookup_key_is_lemma js nlp (wordList : gmap string (list string)) t :
  isWord t = true →
  (normalizeText nlp (text t) ≠ "" →
     termLemma js nlp (text t) = normalizeText nlp (text t)
     ∧ termIsValid js nlp wordList t
       = judgeFound isPosAllowed js t
           (getProperty wordList (normalizeText nlp (text t))))
  ∧ (normalizeText nlp (text t) = "" →
     termLemma js nlp (text t) = toLowerCase js (text t)
     ∧ termIsValid js nlp wordList t
       = judgeFound isPosAllowed js t
           (getProperty wordList (toLowerCase js (text t))))
  ∧ (∀ other : gmap string (list string),
       other !! termLemma js nlp (text t) = wordList !! termLemma js nlp (text t) →
       termIsValid js nlp other t = termIsValid js nlp wordList t).
Proof.
  intros Hword. unfold termIsValid. rewrite termIsValid_word by done.
  split; [|split].
  - intros Hne.
    assert (termLemma js nlp (text t) = normalizeText nlp (text t)) as ->; [|done].
    unfold termLemma. by destruct (normalizeText nlp (text t)).
  - intros Hempty.
    assert (termLemma js nlp (text t) = toLowerCase js (text t)) as ->; [|done].
    unfold termLemma. by rewrite Hempty.
  - intros other Hsame. rewrite termIsValid_word by done.
    unfold getProperty. by rewrite Hsame.
Qed.

Lemma lookup_key_is_lemma_witness :
  let went := Term "Went" ["Word"; "Verb"; "PastTense"] in
  isWord went = true
  ∧ termLemma Sample.asciiEngine Sample.silent (text went) = "went"
  ∧ termIsValid Sample.asciiEngine Sample.silent Sample.wordList went = Ok false.
Proof.
  split; [reflexivity|].
  destruct (lookup_key_is_lemma Sample.asciiEngine Sample.silent Sample.wordList
              (Term "Went" ["Word"; "Verb"; "PastTense"]))
    as (_ & Hfallback & _); [reflexivity|].
  destruct Hfallback as [Hkey Hvalid]; [reflexivity|].
  split; [exact Hkey|]. rewrite Hvalid. reflexivity.
Defined.

(** With normalisation to [go] the past form is accepted; when the tagger
    leaves the lemma empty the key is [went], which the list lacks. *)
Example went_normalised :
  termIsValid Sample.asciiEngine Sample.tagger Sample.wordList
    (Term "went" ["Word"; "Verb"]) = Ok true.
Proof. reflexivity. Qed.

Example went_fallback :
  termIsValid Sample.asciiEngine Sample.silent Sample.wordList
    (Term "went" ["Word"; "Verb"]) = Ok false.
Proof. reflexivity. Qed.

(** ** The label mapping table *)

Lemma hashTag_in (tag : string) (set : list string) :
  hashTag tag ∈ hashTag <$> set ↔ tag ∈ set.
Proof.
  rewrite list_elem_of_fmap. split.
  - intros (tag' & Heq & Hin). by injection Heq as ->.
  - intros Hin. by exists tag.
Qed.

(** The table has no entry under the name [modal-auxiliary]: a modal verb
    whose vocabulary entry uses that label is rejected. *)
Lemma modal_auxiliary_unmapped :
  posMapping !! "modal-auxiliary" = None
  ∧ posMapping !! "modal-auxiliary" ≠ Some ["#Modal"]
  ∧ isPosAllowed ["Word"; "Modal"] (Array ["modal-auxiliary"]) = Ok false
  ∧ termIsValid Sample.asciiEngine Sample.silent {[ "can" := ["modal-auxiliary"] ]}
      (Term "can" ["Word"; "Modal"]) = Ok false.
Proof. repeat split; try reflexivity. discriminate. Qed.

(** C5, as the table is written.  The fifteen entries are those of the
    specification except that the label of the modal verbs is spelled
    [modal auxi]; reading [modal-auxiliary] gives [undefined].  A label
    with an entry matches exactly the terms that carry one of its tags and
    never throws.  A label whose read gives [undefined], that is, a label
    that is neither an entry nor a name of [Object.prototype], matches
    nothing. *)
Theorem posMapping_entries :
  posMapping !! "adverb" = Some (hashTag <$> ["Adverb"])
  ∧ posMapping !! "verb" = Some (hashTag <$> ["Verb"])
  ∧ posMapping !! "adjective" = Some (hashTag <$> ["Adjective"])
  ∧ posMapping !! "noun" = Some (hashTag <$> ["Noun"])
  ∧ posMapping !! "preposition" = Some (hashTag <$> ["Preposition"])
  ∧ posMapping !! "conjunction" = Some (hashTag <$> ["Conjunction"])
  ∧ posMapping !! "determiner" = Some (hashTag <$> ["Determiner"])
  ∧ posMapping !! "pronoun" = Some (hashTag <$> ["Pronoun"])
  ∧ posMapping !! "be-verb" = Some (hashTag <$> ["Copula"])
  ∧ posMapping !! "modal auxi" = Some (hashTag <$> ["Modal"])
  ∧ posMapping !! "interjection" = Some (hashTag <$> ["Interjection"])
  ∧ posMapping !! "do-verb" = Some (hashTag <$> ["Verb"; "Auxiliary"])
  ∧ posMapping !! "number"
    = Some (hashTag <$> ["Value"; "NumericValue"; "Cardinal"; "Ordinal"])
  ∧ posMapping !! "have-verb" = Some (hashTag <$> ["Verb"; "Auxiliary"])
  ∧ posMapping !! "infinitive-to" = Some (hashTag <$> ["Infinitive"])
  ∧ getProperty posMapping "modal-auxiliary" = Undefined
  ∧ (∀ (compromiseTags : list string) userLabel (set : list string),
       posMapping !! userLabel = Some (hashTag <$> set) →
       (labelMatches compromiseTags userLabel = Ok true ↔
          ∃ tag, tag ∈ compromiseTags ∧ tag ∈ set)
       ∧ labelMatches compromiseTags userLabel ≠ Throw)
  ∧ (∀ userLabel,
       getProperty posMapping userLabel = Undefined ↔
       posMapping !! userLabel = None ∧ userLabel ∉ objectPrototypeNames)
  ∧ (∀ (compromiseTags allowed : list string),
       (∀ userLabel, userLabel ∈ allowed →
                     getProperty posMapping userLabel = Undefined) →
       isPosAllowed compromiseTags (Array allowed) = Ok false).
Proof.
  repeat (split; [reflexivity|]). split; [|split].
  - intros compromiseTags userLabel set Hentry.
    split.
    + rewrite labelMatches_true. split.
      * intros (target & tag & Heq & Hin & Hhash).
        rewrite Hentry in Heq. injection Heq as <-.
        exists tag. split; [done|]. by apply hashTag_in.
      * intros (tag & Hin & Hset). exists (hashTag <$> set), tag.
        split; [done|]. split; [done|]. by apply hashTag_in.
    + unfold labelMatches. by rewrite (getProperty_own _ _ _ Hentry).
  - intros userLabel. apply getProperty_Undefined.
  - intros compromiseTags allowed Hnone. simpl.
    apply isPosAllowedOver_false. intros l Hin.
    by apply labelMatches_Undefined, Hnone.
Qed.

Lemma posMapping_entries_witness :
  labelMatches ["Word"; "Auxiliary"] "do-verb" = Ok true
  ∧ isPosAllowed ["Word"; "Noun"] (Array ["thing"; "modal-auxiliary"]) = Ok false.
Proof.
  pose proof posMapping_entries as H.
  do 18 (destruct H as [_ H]). split; [reflexivity|].
  apply H. intros userLabel Hin.
  apply list_elem_of_In in Hin. simpl in Hin.
  destruct Hin as [<- | [<- | []]]; reflexivity.
Defined.

(** ** Growing the list of allowed labels *)

(** C10.  The script at a list in which a name of [Object.prototype] comes
    before a matching label.  The entry [verb] accepts a term tagged
    [Verb]; [constructor] has no entry in the mapping table; with
    [constructor] put in front of [verb] the loop throws on
    [posMapping.constructor] before it reaches [verb], in [isPosAllowed]
    and in the decision on a term alike. *)
Theorem inherited_label_blocks_later_labels :
  isPosAllowed ["Word"; "Verb"] (Array ["verb"]) = Ok true
  ∧ posMapping !! "constructor" = None
  ∧ isPosAllowed ["Word"; "Verb"] (Array ["constructor"; "verb"]) = Throw
  ∧ termIsValid Sample.asciiEngine Sample.silent {[ "run" := ["verb"] ]}
      (Term "run" ["Word"; "Verb"]) = Ok true
  ∧ termIsValid Sample.asciiEngine Sample.silent {[ "run" := ["constructor"; "verb"] ]}
      (Term "run" ["Word"; "Verb"]) = Throw.
Proof. repeat split; reflexivity. Qed.

(** ** The document loop *)

Lemma append_assoc (a b c : string) : (a +:+ b) +:+ c = a +:+ (b +:+ c).
Proof.
  induction a as [|ch a IH]; [done|].
  change (String ch ((a +:+ b) +:+ c) = String ch (a +:+ (b +:+ c))).
  by rewrite IH.
Qed.

Lemma append_empty_r (a : string) : a +:+ "" = a.
Proof.
  induction a as [|ch a IH]; [done|].
  change (String ch (a +:+ "") = String ch a). by rewrite IH.
Qed.

Lemma joinPieces_cons (verdict : term → bool) t ts :
  joinPieces verdict (t :: ts)
  = termHtml (text t) (verdict t) +:+ joinPieces verdict ts.
Proof. reflexivity. Qed.

(** The loop started from any pair of accumulators, when the decision on
    every term is the one [verdict] tells. *)
Lemma forEachTerm_Ok js nlp (wordList : gmap string (list string))
    (verdict : term → bool) ts acc :
  (∀ t, t ∈ ts → termIsValid js nlp wordList t = Ok (verdict t)) →
  forEachTerm js nlp wordList ts acc
  = Ok (fst acc + length (List.filter isWord ts),
        snd acc +:+ joinPieces verdict ts).
Proof.
  revert acc. induction ts as [|t ts IH]; intros [wordCount htmlOutput] Hall.
  - simpl. by rewrite Nat.add_0_r, append_empty_r.
  - simpl forEachTerm. unfold termStep.
    rewrite (Hall t) by apply list_elem_of_here.
    rewrite IH by (intros t' Hin; apply Hall; by apply list_elem_of_further).
    cbn [fst snd]. rewrite joinPieces_cons, append_assoc.
    cbn [List.filter]. destruct (isWord t); cbn [length]; do 2 f_equal; lia.
Qed.

(** The loop throws exactly when the decision on one of the terms does. *)
Lemma forEachTerm_Throw js nlp (wordList : gmap string (list string)) ts acc :
  forEachTerm js nlp wordList ts acc = Throw ↔
  ∃ t, t ∈ ts ∧ termIsValid js nlp wordList t = Throw.
Proof.
  revert acc. induction ts as [|t ts IH]; intros acc; simpl.
  - split; [discriminate|]. intros (t & Hin & _). by apply elem_of_nil in Hin.
  - unfold termStep. destruct (termIsValid js nlp wordList t) as [b|] eqn:E.
    + rewrite IH. split.
      * intros (t' & Hin & Ht'). exists t'.
        split; [by apply list_elem_of_further | done].
      * intros (t' & Hin & Ht'). apply elem_of_cons in Hin as [-> | Hin];
          [congruence|]. by exists t'.
    + split; [|done]. intros _. exists t. split; [apply list_elem_of_here | done].
Qed.

(** When no decision throws, the decisions are those of a verdict. *)
Lemma verdict_exists js nlp (wordList : gmap string (list string)) (ts : list term) :
  (∀ t, t ∈ ts → termIsValid js nlp wordList t ≠ Throw) →
  ∃ verdict : term → bool,
    ∀ t, t ∈ ts → termIsValid js nlp wordList t = Ok (verdict t).
Proof.
  intros Hsafe.
  exists (λ t, match termIsValid js nlp wordList t with Ok b => b | Throw => true end).
  intros t Hin. specialize (Hsafe t Hin).
  by destruct (termIsValid js nlp wordList t).
Qed.

(** The loop escapes the text of a term before it appends it. *)
Lemma loop_escapes_text :
  checkTerms Sample.asciiEngine Sample.tagger Sample.wordList [Term "<" ["Punctuation"]]
  = Ok (0, "&lt;")
  ∧ checkTerms Sample.asciiEngine Sample.tagger Sample.wordList
      [Term "<" ["Punctuation"]]
    ≠ Ok (0, text (Term "<" ["Punctuation"])).
Proof. split; [reflexivity | discriminate]. Qed.

(** C7, as the loop is written.  When the decision on every term of the
    document completes, the loop completes and its HTML is made of one
    piece per term, in the order of the document and with nothing dropped
    or merged: the escaped text of the term when it is valid, the escaped
    text inside the span of invalid words when it is not. *)
Theorem checkTerms_appends_pieces js nlp (wordList : gmap string (list string))
    (ts : list term) (verdict : term → bool) :
  (∀ t, t ∈ ts → termIsValid js nlp wordList t = Ok (verdict t)) →
  checkTerms js nlp wordList ts
  = Ok (length (List.filter isWord ts),
        foldr (λ t html,
                 (if verdict t then escapeHtml (text t)
                  else "<span class=" +:+ String quoteChar "invalid-word"
                       +:+ String quoteChar ">" +:+ escapeHtml (text t)
                       +:+ "</span>")
                 +:+ html)
              "" ts).
Proof.
  intros Hall. unfold checkTerms.
  by rewrite (forEachTerm_Ok js nlp wordList verdict ts (0, "") Hall).
Qed.

Lemma checkTerms_appends_pieces_witness :
  checkTerms Sample.asciiEngine Sample.tagger Sample.wordList
    [Term "I" ["Word"; "Pronoun"]; Term "<b>" ["Word"; "Noun"]; Term "&" []]
  = Ok (2, "I" +:+ "<span class=" +:+ String quoteChar "invalid-word"
           +:+ String quoteChar ">" +:+ "&lt;b&gt;" +:+ "</span>" +:+ "&amp;").
Proof.
  apply (checkTerms_appends_pieces Sample.asciiEngine Sample.tagger Sample.wordList
           [Term "I" ["Word"; "Pronoun"]; Term "<b>" ["Word"; "Noun"]; Term "&" []]
           (λ t, negb (String.eqb (text t) "<b>"))).
  intros t Hin. apply list_elem_of_In in Hin. simpl in Hin.
  destruct Hin as [<- | [<- | [<- | []]]]; reflexivity.
Defined.

(** C8.  The script at a document that holds a name of [Object.prototype].
    The document has two words, [I] and [constructor]; the list lacks
    [constructor].  The loop throws on the second term, [checkContent]
    ends without writing, and the page keeps the count it showed before
    (here 7) instead of 2. *)
Theorem inherited_lemma_stops_count :
  let document := [Term "I" ["Word"; "Pronoun"]; Term "constructor" ["Word"; "Noun"]] in
  let nlp := Compromise (λ _, document) asciiLower in
  let p := Page Sample.wordList "I constructor" "old" 7 false false false [] in
  length (List.filter isWord document) = 2
  ∧ checkTerms Sample.asciiEngine nlp Sample.wordList document = Throw
  ∧ checkContent Sample.asciiEngine nlp p = Throw
  ∧ wordCountShown (afterCheck Sample.asciiEngine nlp p) = 7.
Proof. repeat split; reflexivity. Qed.

(** ** A failed load *)

(** C6.  The script after a failed load, at a word that is a name of
    [Object.prototype].  The rejected request leaves the empty table; the
    word [constructor] is then looked up in it, the inherited function is
    found, and the validation throws instead of marking the word invalid. *)
Theorem failed_load_then_inherited_lemma :
  let word := Term "constructor" ["Word"; "Noun"] in
  let nlp := Compromise (λ _, [word]) asciiLower in
  let p := Page Sample.wordList "constructor" "" 0 false false false [] in
  let q := loadWordList Sample.asciiEngine nlp "wordlists/level1.json" FetchRejected p in
  currentWordList q = ∅
  ∧ isWord word = true
  ∧ termIsValid Sample.asciiEngine nlp (currentWordList q) word = Throw
  ∧ checkContent Sample.asciiEngine nlp q = Throw.
Proof. repeat split; reflexivity. Qed.

(** ** escapeHtml *)

Lemma length_append (a b : string) :
  String.length (a +:+ b) = String.length a + String.length b.
Proof.
  induction a as [|ch a IH]; [done|].
  change (S (String.length (a +:+ b)) = S (String.length a + String.length b)).
  by rewrite IH.
Qed.

Lemma hasChar_app (c : ascii) (a b : string) :
  hasChar c (a +:+ b) = hasChar c a || hasChar c b.
Proof.
  induction a as [|ch a IH]; [done|].
  change (Ascii.eqb c ch || hasChar c (a +:+ b)
          = Ascii.eqb c ch || hasChar c a || hasChar c b).
  rewrite IH. by destruct (Ascii.eqb c ch).
Qed.

(** The replacement of a character, by cases: one of the five entities, or
    the character itself when it is not one of the five. *)
Lemma escapeChar_cases (c : ascii) :
  (c = "&"%char ∧ escapeChar c = "&amp;")
  ∨ (c = "<"%char ∧ escapeChar c = "&lt;")
  ∨ (c = ">"%char ∧ escapeChar c = "&gt;")
  ∨ (c = quoteChar ∧ escapeChar c = "&quot;")
  ∨ (c = aposChar ∧ escapeChar c = "&#039;")
  ∨ (isSpecial c = false ∧ escapeChar c = String c "").
Proof.
  unfold escapeChar, isSpecial.
  destruct (Ascii.eqb_spec c "&"); [subst; auto|].
  destruct (Ascii.eqb_spec c "<"); [subst; auto|].
  destruct (Ascii.eqb_spec c ">"); [subst; auto 6|].
  destruct (Ascii.eqb_spec c quoteChar); [subst; auto 6|].
  destruct (Ascii.eqb_spec c aposChar); [subst; auto 7|].
  auto 8.
Qed.

Lemma escapeHtml_cons (c : ascii) (s : string) :
  escapeHtml (String c s) = escapeChar c +:+ escapeHtml s.
Proof. reflexivity. Qed.

Lemma escapeHtml_app (a b : string) :
  escapeHtml (a +:+ b) = escapeHtml a +:+ escapeHtml b.
Proof.
  induction a as [|ch a IH]; [done|].
  change (String ch a +:+ b) with (String ch (a +:+ b)).
  by rewrite !escapeHtml_cons, IH, append_assoc.
Qed.

Lemma escapeChar_clean (c d : ascii) :
  d = "<"%char ∨ d = ">"%char ∨ d = quoteChar ∨ d = aposChar →
  hasChar d (escapeChar c) = false.
Proof.
  intros Hd.
  destruct (escapeChar_cases c)
    as [[-> ->] | [[-> ->] | [[-> ->] | [[-> ->] | [[-> ->] | [Hc ->]]]]]];
    try (destruct Hd as [-> | [-> | [-> | ->]]]; reflexivity).
  simpl. rewrite orb_false_r. apply Ascii.eqb_neq. intros <-.
  destruct Hd as [-> | [-> | [-> | ->]]]; discriminate Hc.
Qed.

Lemma escapeHtml_clean (s : string) (d : ascii) :
  d = "<"%char ∨ d = ">"%char ∨ d = quoteChar ∨ d = aposChar →
  hasChar d (escapeHtml s) = false.
Proof.
  intros Hd. induction s as [|c s IH]; [done|].
  by rewrite escapeHtml_cons, hasChar_app, escapeChar_clean, IH.
Qed.

(** X1.  The escaped text holds no [<], no [>], no double quote and no
    apostrophe, whatever the input. *)
Theorem escapeHtml_has_no_markup (s : string) :
  hasChar "<" (escapeHtml s) = false
  ∧ hasChar ">" (escapeHtml s) = false
  ∧ hasChar quoteChar (escapeHtml s) = false
  ∧ hasChar aposChar (escapeHtml s) = false.
Proof. repeat split; apply escapeHtml_clean; auto. Qed.

Lemma escapeChar_head (c : ascii) :
  ∃ rest, escapeChar c = String (if isSpecial c then "&"%char else c) rest
          ∧ (isSpecial c = false → rest = "").
Proof.
  destruct (escapeChar_cases c)
    as [[-> ->] | [[-> ->] | [[-> ->] | [[-> ->] | [[-> ->] | [Hc ->]]]]]];
    try (eexists; split; [reflexivity | discriminate]).
  rewrite Hc. eexists; split; [reflexivity | done].
Qed.

(** Two replacements followed by escaped text agree only for the same
    character. *)
Lemma escapeChar_app_inj (c1 c2 : ascii) (r1 r2 : string) :
  escapeChar c1 +:+ escapeHtml r1 = escapeChar c2 +:+ escapeHtml r2 →
  c1 = c2 ∧ escapeHtml r1 = escapeHtml r2.
Proof.
  destruct (escapeChar_cases c1)
    as [[-> ->] | [[-> ->] | [[-> ->] | [[-> ->] | [[-> ->] | [Hc1 ->]]]]]];
  destruct (escapeChar_cases c2)
    as [[-> ->] | [[-> ->] | [[-> ->] | [[-> ->] | [[-> ->] | [Hc2 ->]]]]]];
    intros H; try (injection H as H; by split); try discriminate H.
  all: injection H as Hhead Htail; subst; discriminate.
Qed.

(** X2.  Escaping loses nothing: two texts with the same escaped form are
    the same text. *)
Theorem escapeHtml_injective (s1 s2 : string) :
  escapeHtml s1 = escapeHtml s2 → s1 = s2.
Proof.
  revert s2. induction s1 as [|c1 s1 IH]; intros [|c2 s2] H.
  - done.
  - exfalso. rewrite escapeHtml_cons in H.
    destruct (escapeChar_head c2) as (rest & Heq & _). rewrite Heq in H.
    discriminate H.
  - exfalso. rewrite escapeHtml_cons in H.
    destruct (escapeChar_head c1) as (rest & Heq & _). rewrite Heq in H.
    discriminate H.
  - rewrite !escapeHtml_cons in H.
    apply escapeChar_app_inj in H as [-> Hrest]. f_equal. by apply IH.
Qed.

Lemma escapeHtml_injective_witness :
  escapeHtml "a<b" = "a&lt;b" ∧ ("a<b" = "a<b").
Proof.
  split; [reflexivity|].
  apply (escapeHtml_injective "a<b" "a<b"). reflexivity.
Defined.

Lemma escapeChar_length (c : ascii) :
  (isSpecial c = false ∧ escapeChar c = String c "")
  ∨ (isSpecial c = true ∧ (4 ≤ String.length (escapeChar c))%nat).
Proof.
  destruct (escapeChar_cases c)
    as [[-> ->] | [[-> ->] | [[-> ->] | [[-> ->] | [[-> ->] | [Hc ->]]]]]];
    try (right; split; [reflexivity | simpl; lia]).
  by left.
Qed.

Lemma escapeHtml_length (s : string) :
  (String.length s ≤ String.length (escapeHtml s))%nat.
Proof.
  induction s as [|c s IH]; [done|].
  rewrite escapeHtml_cons, length_append.
  destruct (escapeChar_length c) as [[_ ->] | [_ Hlen]]; simpl in *; lia.
Qed.

Lemma isSpecial_hasChar (c : ascii) (s : string) :
  isSpecial c = false →
  (∀ d, isSpecial d = true → hasChar d s = false) →
  ∀ d, isSpecial d = true → hasChar d (String c s) = false.
Proof.
  intros Hc Hs d Hd. simpl. rewrite (Hs d Hd), orb_false_r.
  apply Ascii.eqb_neq. intros ->. congruence.
Qed.

(** X3.  Escaping never shortens a text, and it returns the text as it is
    exactly when the text holds none of the five replaced characters. *)
Theorem escapeHtml_identity_iff (s : string) :
  (String.length s ≤ String.length (escapeHtml s))%nat
  ∧ (escapeHtml s = s ↔ ∀ c, isSpecial c = true → hasChar c s = false).
Proof.
  split; [apply escapeHtml_length|].
  induction s as [|c s IH]; [done|].
  rewrite escapeHtml_cons. split.
  - intros Heq. destruct (escapeChar_length c) as [[Hc Hesc] | [_ Hlen]].
    + rewrite Hesc in Heq. injection Heq as Heq.
      apply isSpecial_hasChar; [done|]. by apply IH.
    + exfalso. apply (f_equal String.length) in Heq.
      rewrite length_append in Heq. simpl in Heq.
      pose proof (escapeHtml_length s). lia.
  - intros Hclean.
    assert (isSpecial c = false) as Hc.
    { destruct (isSpecial c) eqn:E; [|done].
      specialize (Hclean c E). simpl in Hclean.
      by rewrite Ascii.eqb_refl in Hclean. }
    destruct (escapeChar_length c) as [[_ ->] | [Hc' _]]; [|congruence].
    change (String c (escapeHtml s) = String c s). f_equal.
    apply IH. intros d Hd. specialize (Hclean d Hd). simpl in Hclean.
    by apply orb_false_iff in Hclean as [_ ?].
Qed.

(** ** More on the label matcher *)

Lemma labelMatches_true_ext (tags1 tags2 : list string) (userLabel : string) :
  (∀ y, y ∈ tags1 ↔ y ∈ tags2) →
  labelMatches tags1 userLabel = Ok true ↔ labelMatches tags2 userLabel = Ok true.
Proof.
  intros Htags. rewrite !labelMatches_true.
  split; intros (target & tag & ? & ? & ?); exists target, tag;
    (split; [done|]); (split; [by apply Htags | done]).
Qed.

Lemma labelMatches_safe (compromiseTags : list string) (userLabel : string) :
  userLabel ∉ objectPrototypeNames → labelMatches compromiseTags userLabel ≠ Throw.
Proof. intros Hout H. by apply labelMatches_Throw in H as [? _]. Qed.

Lemma isPosAllowedOver_ext (tags1 tags2 allowed1 allowed2 : list string) :
  (∀ y, y ∈ tags1 ↔ y ∈ tags2) →
  (∀ y, y ∈ allowed1 ↔ y ∈ allowed2) →
  (∀ y, y ∈ allowed1 → y ∉ objectPrototypeNames) →
  isPosAllowedOver tags1 allowed1 = isPosAllowedOver tags2 allowed2.
Proof.
  intros Htags Hallowed Hout.
  destruct (isPosAllowedOver_safe tags1 allowed1) as (b1 & -> & H1).
  { intros l Hin. by apply labelMatches_safe, Hout. }
  destruct (isPosAllowedOver_safe tags2 allowed2) as (b2 & -> & H2).
  { intros l Hin. by apply labelMatches_safe, Hout, Hallowed. }
  f_equal. apply bool_ext. rewrite H1, H2.
  split; intros (l & Hin & Hm); exists l; (split; [by apply Hallowed|]).
  - by apply (labelMatches_true_ext tags1 tags2 l Htags).
  - by apply (labelMatches_true_ext tags1 tags2 l Htags).
Qed.

Lemma toIsValid_ext (t1 t2 : term) (allowed1 allowed2 : list string) :
  (∀ y, y ∈ tags t1 ↔ y ∈ tags t2) →
  (∀ y, y ∈ allowed1 ↔ y ∈ allowed2) →
  toIsValid t1 (Array allowed1) = toIsValid t2 (Array allowed2).
Proof.
  intros Htags Hallowed.
  destruct (toIsValid_Array t1 allowed1) as (b1 & -> & H1).
  destruct (toIsValid_Array t2 allowed2) as (b2 & -> & H2).
  f_equal. apply bool_ext. rewrite H1, H2. by rewrite !Htags, !Hallowed.
Qed.

Lemma isWord_ext (t1 t2 : term) :
  (∀ y, y ∈ tags t1 ↔ y ∈ tags t2) → isWord t1 = isWord t2.
Proof.
  intros Htags. unfold isWord. by rewrite !(includes_ext _ _ _ Htags).
Qed.

(** X4.  When no allowed label is a name of [Object.prototype], the
    decision on a term reads its text through the lemma and the
    lower-cased text only, its tags as a set and the allowed labels as a
    set: the order of tags and labels, repeated labels and the letter case
    of the text (the lemma being the same) do not change it. *)
Theorem validity_reads_sets js nlp (wordList1 wordList2 : gmap string (list string))
    (t1 t2 : term) (allowed1 allowed2 : list string) :
  toLowerCase js (text t1) = toLowerCase js (text t2) →
  (∀ tag, tag ∈ tags t1 ↔ tag ∈ tags t2) →
  wordList1 !! termLemma js nlp (text t1) = Some allowed1 →
  wordList2 !! termLemma js nlp (text t2) = Some allowed2 →
  (∀ userLabel, userLabel ∈ allowed1 ↔ userLabel ∈ allowed2) →
  (∀ userLabel, userLabel ∈ allowed1 → userLabel ∉ objectPrototypeNames) →
  termIsValid js nlp wordList1 t1 = termIsValid js nlp wordList2 t2.
Proof.
  intros Hlower Htags H1 H2 Hallowed Hout.
  unfold termIsValid, termIsValidVia.
  rewrite (isWord_ext t1 t2 Htags). destruct (isWord t2); [|done].
  rewrite (getProperty_own _ _ _ H1), (getProperty_own _ _ _ H2).
  unfold judgeFound. simpl. rewrite Hlower.
  destruct (String.eqb (toLowerCase js (text t2)) "to").
  - by apply toIsValid_ext.
  - by apply isPosAllowedOver_ext.
Qed.

Lemma validity_reads_sets_witness :
  termIsValid Sample.asciiEngine Sample.silent {[ "study" := ["noun"; "verb"] ]}
    (Term "Study" ["Word"; "Verb"; "Infinitive"])
  = termIsValid Sample.asciiEngine Sample.silent {[ "study" := ["verb"; "noun"; "verb"] ]}
      (Term "STUDY" ["Infinitive"; "Verb"; "Word"]).
Proof.
  apply (validity_reads_sets Sample.asciiEngine Sample.silent _ _
           (Term "Study" ["Word"; "Verb"; "Infinitive"])
           (Term "STUDY" ["Infinitive"; "Verb"; "Word"])
           ["noun"; "verb"] ["verb"; "noun"; "verb"]);
    try reflexivity.
  - intros tag. rewrite <- !includes_true. simpl.
    destruct (String.eqb tag "Word"), (String.eqb tag "Verb"),
      (String.eqb tag "Infinitive"); simpl; tauto.
  - intros l. rewrite <- !includes_true. simpl.
    destruct (String.eqb l "noun"), (String.eqb l "verb"); simpl; tauto.
  - intros l Hin. apply list_elem_of_In in Hin. simpl in Hin.
    destruct Hin as [<- | [<- | []]]; apply includes_false; reflexivity.
Defined.

(** A tag found in an entry of [posMapping] is one of seventeen. *)
Lemma posMapping_tags (userLabel : string) (target : list string) (tag : string) :
  posMapping !! userLabel = Some target →
  hashTag tag ∈ target →
  tag ∈ [ "Adverb"; "Verb"; "Adjective"; "Noun"; "Preposition"; "Conjunction";
          "Determiner"; "Pronoun"; "Copula"; "Modal"; "Interjection";
          "Auxiliary"; "Value"; "NumericValue"; "Cardinal"; "Ordinal";
          "Infinitive" ].
Proof.
  intros Hentry Hin. unfold posMapping in Hentry.
  apply elem_of_list_to_map_2, list_elem_of_In in Hentry.
  apply list_elem_of_In in Hin. unfold hashTag in Hin. simpl in Hentry.
  repeat (destruct Hentry as [Hentry | Hentry];
          [ injection Hentry as <- <-; simpl in Hin;
            repeat (destruct Hin as [Hin | Hin];
                    [injection Hin as <-; apply includes_true; reflexivity|]);
            destruct Hin
          | ]).
  destruct Hentry.
Qed.

(** X5.  A word is accepted only if one of its tags is among the seventeen
    tags the mapping table knows; a word that carries other tags only is
    never judged valid, under any word list. *)
Theorem valid_word_has_mapped_tag js nlp (wordList : gmap string (list string)) t :
  isWord t = true →
  termIsValid js nlp wordList t = Ok true →
  ∃ tag, tag ∈ tags t
         ∧ tag ∈ [ "Adverb"; "Verb"; "Adjective"; "Noun"; "Preposition";
                   "Conjunction"; "Determiner"; "Pronoun"; "Copula"; "Modal";
                   "Interjection"; "Auxiliary"; "Value"; "NumericValue";
                   "Cardinal"; "Ordinal"; "Infinitive" ].
Proof.
  intros Hword. unfold termIsValid. rewrite termIsValid_word by done.
  unfold judgeFound.
  destruct (getProperty wordList (termLemma js nlp (text t))) as [allowed| |];
    cbn [truthy]; [| |discriminate].
  - destruct (String.eqb (toLowerCase js (text t)) "to").
    + destruct (toIsValid_Array t allowed) as (b & -> & Hrule).
      intros H. injection H as ->.
      destruct (proj1 Hrule eq_refl) as [[Htag _] | [Htag _]].
      * exists "Infinitive". split; [done|]. apply includes_true; reflexivity.
      * exists "Preposition". split; [done|]. apply includes_true; reflexivity.
    + intros H. apply isPosAllowedOver_true in H as (l & _ & Hm).
      apply labelMatches_true in Hm as (target & tag & Hentry & Hin & Hhash).
      exists tag. split; [done|]. by eapply posMapping_tags.
  - destruct (String.eqb (toLowerCase js (text t)) "to"); [|discriminate].
    unfold toIsValid.
    destruct (includes (tags t) "Infinitive"), (includes (tags t) "Preposition");
      discriminate.
Qed.

Lemma valid_word_has_mapped_tag_witness :
  ∃ tag, tag ∈ ["Word"; "Noun"; "Singular"]
         ∧ tag ∈ [ "Adverb"; "Verb"; "Adjective"; "Noun"; "Preposition";
                   "Conjunction"; "Determiner"; "Pronoun"; "Copula"; "Modal";
                   "Interjection"; "Auxiliary"; "Value"; "NumericValue";
                   "Cardinal"; "Ordinal"; "Infinitive" ].
Proof.
  apply (valid_word_has_mapped_tag Sample.asciiEngine Sample.tagger Sample.wordList
           (Term "home" ["Word"; "Noun"; "Singular"])); reflexivity.
Defined.

(** X6.  An entry whose array of labels is empty rejects every word with
    that lemma, and so does, for a word other than [to], an entry made of
    labels that [posMapping] reads as [undefined].  When the lemma is not a
    name of [Object.prototype], the word is rejected in the same way once
    the entry is deleted. *)
Theorem useless_entry_is_like_none js nlp (wordList : gmap string (list string)) t
    (allowed : list string) :
  isWord t = true →
  wordList !! termLemma js nlp (text t) = Some allowed →
  allowed = []
  ∨ (toLowerCase js (text t) ≠ "to"
     ∧ ∀ userLabel, userLabel ∈ allowed →
                    getProperty posMapping userLabel = Undefined) →
  termIsValid js nlp wordList t = Ok false
  ∧ (termLemma js nlp (text t) ∉ objectPrototypeNames →
     termIsValid js nlp (delete (termLemma js nlp (text t)) wordList) t = Ok false).
Proof.
  intros Hword Hfound Huseless. split.
  - unfold termIsValid. rewrite (termIsValid_own _ _ _ _ _ allowed) by done.
    destruct Huseless as [-> | [Hto Hnone]].
    + destruct (String.eqb (toLowerCase js (text t)) "to"); [|done].
      unfold toIsValid. simpl. by rewrite !andb_false_r.
    + destruct (String.eqb_spec (toLowerCase js (text t)) "to"); [done|].
      simpl. apply isPosAllowedOver_false. intros l Hin.
      by apply labelMatches_Undefined, Hnone.
  - intros Hout. unfold termIsValid. rewrite termIsValid_word by done.
    assert (getProperty (delete (termLemma js nlp (text t)) wordList)
              (termLemma js nlp (text t)) = Undefined) as ->; [|done].
    apply getProperty_Undefined. split; [apply lookup_delete_eq | done].
Qed.

Lemma useless_entry_is_like_none_witness :
  termIsValid Sample.asciiEngine Sample.silent
    {[ "blue" := ["colour"; "modal-auxiliary"] ]}
    (Term "Blue" ["Word"; "Adjective"]) = Ok false
  ∧ termIsValid Sample.asciiEngine Sample.silent {[ "to" := [] ]}
      (Term "to" ["Word"; "Infinitive"]) = Ok false.
Proof.
  split.
  - apply (useless_entry_is_like_none Sample.asciiEngine Sample.silent
             {[ "blue" := ["colour"; "modal-auxiliary"] ]}
             (Term "Blue" ["Word"; "Adjective"]) ["colour"; "modal-auxiliary"]);
      [reflexivity | reflexivity |].
    right. split; [discriminate|]. intros l Hin.
    apply list_elem_of_In in Hin. simpl in Hin.
    destruct Hin as [<- | [<- | []]]; reflexivity.
  - apply (useless_entry_is_like_none Sample.asciiEngine Sample.silent {[ "to" := [] ]}
             (Term "to" ["Word"; "Infinitive"]) []);
      [reflexivity | reflexivity | by left].
Defined.

(** X7.  The rule for [to] only narrows the generic rule: on the entry of
    a [to] that the rule accepts, the label matcher never answers [false];
    it answers [true] when no label of the entry is a name of
    [Object.prototype], and otherwise it may throw on such a label before
    it reaches the match. *)
Theorem to_rule_narrows_matcher js nlp (wordList : gmap string (list string)) t
    (allowed : list string) :
  isWord t = true →
  toLowerCase js (text t) = "to" →
  wordList !! termLemma js nlp (text t) = Some allowed →
  termIsValid js nlp wordList t = Ok true →
  isPosAllowed (tags t) (Array allowed) ≠ Ok false
  ∧ ((∀ userLabel, userLabel ∈ allowed → userLabel ∉ objectPrototypeNames) →
     isPosAllowed (tags t) (Array allowed) = Ok true).
Proof.
  intros Hword Hto Hfound.
  unfold termIsValid. rewrite (termIsValid_own _ _ _ _ _ allowed) by done.
  rewrite Hto, String.eqb_refl.
  destruct (toIsValid_Array t allowed) as (b & -> & Hrule).
  intros H. injection H as ->.
  assert (∃ userLabel, userLabel ∈ allowed
                       ∧ labelMatches (tags t) userLabel = Ok true) as Hmatch.
  { destruct (proj1 Hrule eq_refl) as [[Htag Hlabel] | [Htag Hlabel]].
    - exists "infinitive-to". split; [done|]. apply labelMatches_true.
      exists ["#Infinitive"], "Infinitive". split; [reflexivity|].
      split; [done|]. apply includes_true; reflexivity.
    - exists "preposition". split; [done|]. apply labelMatches_true.
      exists ["#Preposition"], "Preposition". split; [reflexivity|].
      split; [done|]. apply includes_true; reflexivity. }
  split.
  - intros Hfalse. destruct Hmatch as (l & Hin & Hm).
    rewrite (proj1 (isPosAllowedOver_false _ _) Hfalse l Hin) in Hm. discriminate.
  - intros Hout. destruct (isPosAllowedOver_safe (tags t) allowed) as (b & Hb & Hiff).
    { intros l Hin. by apply labelMatches_safe, Hout. }
    simpl. rewrite Hb. f_equal. by apply Hiff.
Qed.

Lemma to_rule_narrows_matcher_witness :
  isPosAllowed ["Word"; "Preposition"] (Array ["preposition"; "adverb"]) = Ok true.
Proof.
  destruct (to_rule_narrows_matcher Sample.asciiEngine Sample.silent
              {[ "to" := ["preposition"; "adverb"] ]}
              (Term "To" ["Word"; "Preposition"]) ["preposition"; "adverb"])
    as [_ Htrue]; [reflexivity | reflexivity | reflexivity | reflexivity |].
  apply Htrue. intros l Hin. apply list_elem_of_In in Hin. simpl in Hin.
  destruct Hin as [<- | [<- | []]]; apply includes_false; reflexivity.
Defined.

(** ** More on the document loop *)

Lemma forEachTerm_app js nlp (wordList : gmap string (list string)) ts1 ts2 acc :
  forEachTerm js nlp wordList (ts1 ++ ts2)%list acc
  = match forEachTerm js nlp wordList ts1 acc with
    | Ok acc' => forEachTerm js nlp wordList ts2 acc'
    | Throw => Throw
    end.
Proof.
  revert acc. induction ts1 as [|t ts1 IH]; intros acc; simpl; [done|].
  by destruct (termStep js nlp wordList acc t).
Qed.

(** The loop from any accumulators, told by the loop from the initial ones. *)
Lemma forEachTerm_shift js nlp (wordList : gmap string (list string)) ts acc :
  forEachTerm js nlp wordList ts acc
  = match forEachTerm js nlp wordList ts (0, "") with
    | Ok counted => Ok (fst acc + fst counted, snd acc +:+ snd counted)
    | Throw => Throw
    end.
Proof.
  destruct (forEachTerm js nlp wordList ts (0, "")) as [counted|] eqn:E.
  - destruct (verdict_exists js nlp wordList ts) as (verdict & Hall).
    { intros t Hin Hthrow.
      assert (forEachTerm js nlp wordList ts (0, "") = Throw) as Hno
        by (apply forEachTerm_Throw; by exists t).
      congruence. }
    rewrite (forEachTerm_Ok js nlp wordList verdict ts _ Hall) in E.
    rewrite (forEachTerm_Ok js nlp wordList verdict ts _ Hall).
    injection E as <-. reflexivity.
  - apply forEachTerm_Throw. by apply (forEachTerm_Throw js nlp wordList ts (0, "")).
Qed.

(** X8.  Checking two documents one after the other and checking their
    concatenation agree: when both checks complete the word counts add up
    and the HTML is the first HTML followed by the second, and when one of
    them throws so does the check of the concatenation. *)
Theorem checkTerms_app js nlp (wordList : gmap string (list string))
    (ts1 ts2 : list term) :
  checkTerms js nlp wordList (ts1 ++ ts2)%list
  = match checkTerms js nlp wordList ts1, checkTerms js nlp wordList ts2 with
    | Ok first, Ok second =>
        Ok (fst first + fst second, snd first +:+ snd second)
    | _, _ => Throw
    end.
Proof.
  unfold checkTerms. rewrite forEachTerm_app.
  destruct (forEachTerm js nlp wordList ts1 (0, "")) as [first|]; [|done].
  rewrite forEachTerm_shift.
  by destruct (forEachTerm js nlp wordList ts2 (0, "")).
Qed.

Lemma joinPieces_valid (ts : list term) :
  joinPieces (λ _, true) ts = escapeHtml (joinTexts ts).
Proof.
  induction ts as [|t ts IH]; [done|].
  rewrite joinPieces_cons, IH. simpl. by rewrite escapeHtml_app.
Qed.

(** X9.  When every term of the document is valid, the HTML is the escaped
    form of the texts of the terms put together: nothing is added, nothing
    is left out. *)
Theorem all_valid_html js nlp (wordList : gmap string (list string)) (ts : list term) :
  (∀ t, t ∈ ts → termIsValid js nlp wordList t = Ok true) →
  checkTerms js nlp wordList ts
  = Ok (length (List.filter isWord ts), escapeHtml (joinTexts ts)).
Proof.
  intros Hvalid. unfold checkTerms.
  rewrite (forEachTerm_Ok js nlp wordList (λ _, true) ts (0, "") Hvalid).
  by rewrite joinPieces_valid.
Qed.

Lemma all_valid_html_witness :
  checkTerms Sample.asciiEngine Sample.tagger Sample.wordList
    [Term "I" ["Word"; "Pronoun"]; Term "&" []; Term "go" ["Word"; "Verb"]]
  = Ok (2, "I&amp;go").
Proof.
  apply (all_valid_html Sample.asciiEngine Sample.tagger Sample.wordList
           [Term "I" ["Word"; "Pronoun"]; Term "&" []; Term "go" ["Word"; "Verb"]]).
  intros t Hin. apply list_elem_of_In in Hin. simpl in Hin.
  destruct Hin as [<- | [<- | [<- | []]]]; reflexivity.
Defined.

Lemma invalidSpan_has_lt (inner : string) : hasChar "<" (invalidSpan inner) = true.
Proof. unfold invalidSpan. by rewrite hasChar_app. Qed.

Lemma joinPieces_has_lt (verdict : term → bool) (ts : list term) :
  hasChar "<" (joinPieces verdict ts) = true ↔ ∃ t, t ∈ ts ∧ verdict t = false.
Proof.
  induction ts as [|t ts IH].
  - split; [discriminate|]. intros (t & Hin & _). by apply elem_of_nil in Hin.
  - rewrite joinPieces_cons, hasChar_app, orb_true_iff, IH.
    destruct (verdict t) eqn:E; unfold termHtml.
    + rewrite escapeHtml_clean by auto. split.
      * intros [? | (t' & Hin & Hinv)]; [done|].
        exists t'. split; [by apply list_elem_of_further | done].
      * intros (t' & Hin & Hinv). right.
        apply elem_of_cons in Hin as [-> | Hin]; [congruence|]. by exists t'.
    + rewrite invalidSpan_has_lt. split; [|by left].
      intros _. exists t. split; [apply list_elem_of_here | done].
Qed.

(** X10.  The HTML built by the loop holds the character [<] exactly when
    some term of the document is invalid: markup is produced for invalid
    terms and for nothing else. *)
Theorem markup_iff_invalid js nlp (wordList : gmap string (list string))
    (ts : list term) (wordCount : nat) (htmlOutput : string) :
  checkTerms js nlp wordList ts = Ok (wordCount, htmlOutput) →
  hasChar "<" htmlOutput = true ↔
  ∃ t, t ∈ ts ∧ termIsValid js nlp wordList t = Ok false.
Proof.
  intros Hdone. unfold checkTerms in Hdone.
  destruct (verdict_exists js nlp wordList ts) as (verdict & Hall).
  { intros t Hin Hthrow.
    assert (forEachTerm js nlp wordList ts (0, "") = Throw) as Hno
      by (apply forEachTerm_Throw; by exists t).
    congruence. }
  rewrite (forEachTerm_Ok js nlp wordList verdict ts _ Hall) in Hdone.
  injection Hdone as _ <-.
  change (hasChar "<" (joinPieces verdict ts) = true ↔
          ∃ t, t ∈ ts ∧ termIsValid js nlp wordList t = Ok false).
  rewrite joinPieces_has_lt.
  split; intros (t & Hin & Ht); exists t; (split; [done|]).
  - by rewrite (Hall t Hin), Ht.
  - rewrite (Hall t Hin) in Ht. by injection Ht.
Qed.

Lemma markup_iff_invalid_witness :
  hasChar "<" ("I" +:+ invalidSpan "&lt;b&gt;") = true.
Proof.
  apply (markup_iff_invalid Sample.asciiEngine Sample.tagger Sample.wordList
           [Term "I" ["Word"; "Pronoun"]; Term "<b>" ["Word"; "Noun"]]
           2 ("I" +:+ invalidSpan "&lt;b&gt;")); [reflexivity|].
  exists (Term "<b>" ["Word"; "Noun"]).
  split; [|reflexivity]. apply list_elem_of_further, list_elem_of_here.
Defined.

(** ** checkContent as a whole *)

Lemma checkContent_Ok js nlp (p checked : page) :
  checkContent js nlp p = Ok checked →
  checked = setDisplay (highlightHtml checked) (wordCountShown checked) p.
Proof.
  unfold checkContent. destruct (trimIsEmpty (editorValue p)).
  - by intros [= <-].
  - destruct (checkTerms js nlp (currentWordList p) (terms nlp (editorValue p)));
      [|discriminate]. by intros [= <-].
Qed.

Lemma checkContent_setDisplay js nlp html count (p : page) :
  checkContent js nlp (setDisplay html count p)
  = match checkContent js nlp p with
    | Ok checked => Ok checked
    | Throw => Throw
    end.
Proof.
  unfold checkContent. simpl. destruct (trimIsEmpty (editorValue p)); [done|].
  by destruct (checkTerms js nlp (currentWordList p) (terms nlp (editorValue p))).
Qed.

Lemma checkContent_idem js nlp (p checked : page) :
  checkContent js nlp p = Ok checked → checkContent js nlp checked = Ok checked.
Proof.
  intros H. rewrite (checkContent_Ok js nlp p checked H) at 1.
  by rewrite checkContent_setDisplay, H.
Qed.

Lemma afterCheck_display js nlp (p : page) :
  afterCheck js nlp p
  = setDisplay (highlightHtml (afterCheck js nlp p))
               (wordCountShown (afterCheck js nlp p)) p.
Proof.
  unfold afterCheck. destruct (checkContent js nlp p) as [checked|] eqn:E.
  - by apply (checkContent_Ok js nlp).
  - by destruct p.
Qed.

Lemma afterCheck_idem js nlp (p : page) :
  afterCheck js nlp (afterCheck js nlp p) = afterCheck js nlp p.
Proof.
  destruct (checkContent js nlp p) as [checked|] eqn:E.
  - assert (afterCheck js nlp p = checked) as ->
      by (unfold afterCheck; by rewrite E).
    unfold afterCheck. by rewrite (checkContent_idem js nlp p checked E).
  - assert (afterCheck js nlp p = p) as -> by (unfold afterCheck; by rewrite E).
    unfold afterCheck. by rewrite E.
Qed.

(** X11.  A run of [checkContent] writes the highlight and the word count
    and nothing else on the page, also when it ends with an exception (it
    then writes nothing), and running it again at once changes nothing. *)
Theorem checkContent_settles js nlp (p : page) :
  currentWordList (afterCheck js nlp p) = currentWordList p
  ∧ editorValue (afterCheck js nlp p) = editorValue p
  ∧ loadingShown (afterCheck js nlp p) = loadingShown p
  ∧ selectDisabled (afterCheck js nlp p) = selectDisabled p
  ∧ editorDisabled (afterCheck js nlp p) = editorDisabled p
  ∧ alerts (afterCheck js nlp p) = alerts p
  ∧ afterCheck js nlp (afterCheck js nlp p) = afterCheck js nlp p
  ∧ (∀ checked, checkContent js nlp p = Ok checked →
                checkContent js nlp checked = Ok checked)
  ∧ (checkContent js nlp p = Throw → afterCheck js nlp p = p).
Proof.
  pose proof (afterCheck_display js nlp p) as Hdisplay.
  do 6 (split; [by rewrite Hdisplay|]).
  split; [apply afterCheck_idem|]. split; [apply checkContent_idem|].
  intros H. unfold afterCheck. by rewrite H.
Qed.

Lemma trimIsEmpty_spaces (s : string) :
  (∀ c, hasChar c s = true → isSpaceChar c = true) → trimIsEmpty s = true.
Proof.
  induction s as [|c s IH]; intros H; [done|]. simpl.
  rewrite (H c) by (simpl; by rewrite Ascii.eqb_refl).
  apply IH. intros d Hd. apply H. simpl. by rewrite Hd, orb_true_r.
Qed.

(** X12.  When the editor holds nothing but ASCII white space (tab, line
    feed, vertical tab, form feed, carriage return, space), or nothing at
    all, [checkContent] completes, the highlight is cleared and the count
    is 0, whatever the tagger and the word list. *)
Theorem blank_text_clears_display js nlp (p : page) :
  (∀ c, hasChar c (editorValue p) = true → isSpaceChar c = true) →
  checkContent js nlp p = Ok (setDisplay "" 0 p)
  ∧ highlightHtml (afterCheck js nlp p) = ""
  ∧ wordCountShown (afterCheck js nlp p) = 0
  ∧ ∀ js' nlp', checkContent js' nlp' p = checkContent js nlp p.
Proof.
  intros Hblank. apply trimIsEmpty_spaces in Hblank.
  unfold afterCheck, checkContent. rewrite Hblank. by repeat split.
Qed.

Lemma blank_text_clears_display_witness :
  let p := Page Sample.wordList "  " "old" 7 false false false [] in
  highlightHtml (afterCheck Sample.asciiEngine Sample.tagger p) = ""
  ∧ wordCountShown (afterCheck Sample.asciiEngine Sample.tagger p) = 0.
Proof.
  destruct (blank_text_clears_display Sample.asciiEngine Sample.tagger
              (Page Sample.wordList "  " "old" 7 false false false []))
    as (_ & Hhtml & Hcount & _).
  - intros c. simpl. destruct (Ascii.eqb_spec c " ") as [-> | _]; [reflexivity|].
    discriminate.
  - split; [exact Hhtml | exact Hcount].
Defined.

(** ** More on loadWordList *)

Lemma checkContent_setLoading js nlp (busy : bool) (p : page) :
  checkContent js nlp (setLoading busy p)
  = match checkContent js nlp p with
    | Ok checked => Ok (setLoading busy checked)
    | Throw => Throw
    end.
Proof.
  unfold checkContent. simpl. destruct (trimIsEmpty (editorValue p)); [done|].
  by destruct (checkTerms js nlp (currentWordList p) (terms nlp (editorValue p))).
Qed.

Lemma loadWordList_settle_editor js nlp filePath (r : fetched) (p : page) :
  editorValue (loadWordList_settle js nlp filePath r p) = editorValue p.
Proof.
  unfold loadWordList_settle. destruct r as [|[] [wordList|]]; try reflexivity.
  destruct (checkContent js nlp (setWordList wordList p)) as [checked|] eqn:E;
    [|reflexivity].
  by rewrite (checkContent_Ok js nlp _ _ E).
Qed.

(** X13.  While a load is under way the loading note is shown and both
    controls are disabled; once it has settled, with a table or with a
    failure, the note is hidden and both controls are enabled, whatever the
    page looked like when the request settled.  Loading never changes the
    text of the editor. *)
Theorem load_restores_controls js nlp filePath (r : fetched) (p settling : page) :
  (loadingShown (loadWordList_begin p) = true
   ∧ selectDisabled (loadWordList_begin p) = true
   ∧ editorDisabled (loadWordList_begin p) = true)
  ∧ (loadingShown (loadWordList_settle js nlp filePath r settling) = false
     ∧ selectDisabled (loadWordList_settle js nlp filePath r settling) = false
     ∧ editorDisabled (loadWordList_settle js nlp filePath r settling) = false)
  ∧ editorValue (loadWordList js nlp filePath r p) = editorValue p.
Proof.
  split; [by repeat split|]. split; [by repeat split|].
  unfold loadWordList. by rewrite loadWordList_settle_editor.
Qed.

(** X14.  A load that fails leaves the highlight and the word count as
    they were (they are not computed again against the emptied list) and
    opens exactly one dialog, which names the file. *)
Theorem failed_load_keeps_display js nlp filePath (r : fetched) (p : page) :
  r = FetchRejected ∨ (∃ body, r = Responded false body) ∨ r = Responded true None →
  highlightHtml (loadWordList js nlp filePath r p) = highlightHtml p
  ∧ wordCountShown (loadWordList js nlp filePath r p) = wordCountShown p
  ∧ alerts (loadWordList js nlp filePath r p) = filePath :: alerts p.
Proof. intros [-> | [[body ->] | ->]]; by repeat split. Qed.

Lemma failed_load_keeps_display_witness :
  let p := Page Sample.wordList "I go home." "Igohome." 3 false false false [] in
  let q := loadWordList Sample.asciiEngine Sample.tagger "wordlists/level3.json"
             (Responded true None) p in
  highlightHtml q = "Igohome." ∧ wordCountShown q = 3
  ∧ alerts q = ["wordlists/level3.json"]
  ∧ highlightHtml (afterCheck Sample.asciiEngine Sample.tagger q)
    = invalidSpan "I" +:+ invalidSpan "go" +:+ invalidSpan "home" +:+ ".".
Proof.
  destruct (failed_load_keeps_display Sample.asciiEngine Sample.tagger
              "wordlists/level3.json" (Responded true None)
              (Page Sample.wordList "I go home." "Igohome." 3 false false false []))
    as (Hhtml & Hcount & Halerts); [by right; right|].
  split; [exact Hhtml|]. split; [exact Hcount|]. split; [exact Halerts|].
  reflexivity.
Defined.

(** X15.  A load whose request succeeds assigns the fetched table and
    checks the content against it inside the [try].  When that check
    completes, the list is the fetched table as a whole, no dialog is
    opened and the display is up to date: checking again changes nothing.
    When that check throws, the [catch] block opens the dialog for the file
    and empties the list, and the display is left as it was. *)
Theorem successful_load_in_sync js nlp filePath
    (wordList : gmap string (list string)) (p : page) :
  (∀ checked,
     checkContent js nlp (setWordList wordList p) = Ok checked →
     currentWordList (loadWordList js nlp filePath (Responded true (Some wordList)) p)
     = wordList
     ∧ alerts (loadWordList js nlp filePath (Responded true (Some wordList)) p)
       = alerts p
     ∧ highlightHtml (loadWordList js nlp filePath (Responded true (Some wordList)) p)
       = highlightHtml checked
     ∧ wordCountShown (loadWordList js nlp filePath (Responded true (Some wordList)) p)
       = wordCountShown checked
     ∧ checkContent js nlp
         (loadWordList js nlp filePath (Responded true (Some wordList)) p)
       = Ok (loadWordList js nlp filePath (Responded true (Some wordList)) p))
  ∧ (checkContent js nlp (setWordList wordList p) = Throw →
     currentWordList (loadWordList js nlp filePath (Responded true (Some wordList)) p)
     = ∅
     ∧ alerts (loadWordList js nlp filePath (Responded true (Some wordList)) p)
       = filePath :: alerts p
     ∧ highlightHtml (loadWordList js nlp filePath (Responded true (Some wordList)) p)
       = highlightHtml p
     ∧ wordCountShown (loadWordList js nlp filePath (Responded true (Some wordList)) p)
       = wordCountShown p).
Proof.
  unfold loadWordList, loadWordList_settle, loadWordList_begin.
  assert (setWordList wordList (setLoading true p)
          = setLoading true (setWordList wordList p)) as -> by done.
  rewrite checkContent_setLoading. split.
  - intros checked Hchecked. rewrite Hchecked.
    pose proof (checkContent_Ok js nlp _ _ Hchecked) as Hdisplay.
    split; [by rewrite Hdisplay|]. split; [by rewrite Hdisplay|].
    split; [done|]. split; [done|].
    rewrite checkContent_setLoading, checkContent_setLoading.
    by rewrite (checkContent_idem js nlp _ _ Hchecked).
  - intros Hthrow. rewrite Hthrow. by repeat split.
Qed.

Lemma successful_load_in_sync_witness :
  let p := Page ∅ "I go home." "" 0 false false false [] in
  let q := loadWordList Sample.asciiEngine Sample.tagger "wordlists/level1.json"
             (Responded true (Some Sample.wordList)) p in
  currentWordList q = Sample.wordList ∧ alerts q = []
  ∧ highlightHtml q = "Igohome." ∧ wordCountShown q = 3.
Proof.
  destruct (successful_load_in_sync Sample.asciiEngine Sample.tagger
              "wordlists/level1.json" Sample.wordList
              (Page ∅ "I go home." "" 0 false false false [])) as [Hok _].
  destruct (Hok (Page Sample.wordList "I go home." "Igohome." 3 false false false []))
    as (Hlist & Halerts & Hhtml & Hcount & _); [reflexivity|].
  split; [exact Hlist|]. split; [exact Halerts|].
  split; [exact Hhtml | exact Hcount].
Defined.

(** A fetched table whose check throws: the list ends up empty. *)
Example successful_fetch_then_exception :
  let nlp := Compromise (λ _, [Term "constructor" ["Word"; "Noun"]]) asciiLower in
  loadWordList Sample.asciiEngine nlp "wordlists/level1.json"
    (Responded true (Some Sample.wordList))
    (Page ∅ "constructor" "" 0 false false false [])
  = Page ∅ "constructor" "" 0 false false false ["wordlists/level1.json"].
Proof. reflexivity. Qed.

(** ** The debounced input listener *)

Lemma clearTimeout_oneTimer js nlp (w : window) :
  oneTimer js nlp w → clearTimeout (debounceTimer w) (timers w) = ∅.
Proof.
  intros [Hempty | (handle & due & Hid & Hsingle)].
  - rewrite Hempty. destruct (debounceTimer w); [apply delete_empty | done].
  - rewrite Hid, Hsingle. apply delete_singleton_eq.
Qed.

(** The window after an edit: one timer, set for the delay from now. *)
Lemma step_Input js nlp (w : window) (newValue : string) :
  oneTimer js nlp w →
  step js nlp (Input newValue) w
  = Window (setEditorValue newValue (doc w))
           {[ nextHandle w := (clock w + DEBOUNCE_DELAY, afterCheck js nlp) ]}
           (S (nextHandle w)) (Some (nextHandle w)) (clock w).
Proof.
  intros Hone. unfold step, debounce.
  assert (oneTimer js nlp (onPage (setEditorValue newValue) w)) as Hone' by done.
  rewrite (clearTimeout_oneTimer js nlp _ Hone'). by rewrite insert_empty.
Qed.

Lemma step_oneTimer js nlp (e : event) (w : window) :
  oneTimer js nlp w → oneTimer js nlp (step js nlp e w).
Proof.
  intros Hone. destruct e as [newValue | filePath | filePath r | ms | handle].
  - rewrite step_Input by done. right. by eexists _, _.
  - done.
  - done.
  - done.
  - simpl. destruct (timers w !! handle) as [[due callback]|] eqn:Hlookup; [|done].
    destruct (due <=? clock w)%nat; [|done].
    left. simpl. destruct Hone as [Hempty | (h & due' & _ & Hsingle)].
    + rewrite Hempty. apply delete_empty.
    + rewrite Hsingle in Hlookup |- *.
      apply lookup_singleton_Some in Hlookup as [<- _].
      apply delete_singleton_eq.
Qed.

Lemma run_oneTimer js nlp (es : list event) (w : window) :
  oneTimer js nlp w → oneTimer js nlp (run js nlp es w).
Proof.
  revert w. induction es as [|e es IH]; intros w Hone; [done|].
  simpl. apply IH. by apply step_oneTimer.
Qed.

Lemma startWindow_oneTimer js nlp (p : page) : oneTimer js nlp (startWindow p).
Proof. by left. Qed.

(** X16.  Whatever the user and the browser do after the script has
    started, at most one timer is pending at any moment; when there is one,
    it is the timer whose handle [debounceTimer] holds and it runs
    [checkContent]. *)
Theorem at_most_one_timer js nlp (history : list event) (p : page) :
  (size (timers (run js nlp history (startWindow p))) ≤ 1)%nat
  ∧ ∀ handle entry,
      timers (run js nlp history (startWindow p)) !! handle = Some entry →
      debounceTimer (run js nlp history (startWindow p)) = Some handle
      ∧ snd entry = afterCheck js nlp.
Proof.
  pose proof (run_oneTimer js nlp history _ (startWindow_oneTimer js nlp p)) as Hone.
  destruct Hone as [Hempty | (h & due & Hid & Hsingle)].
  - rewrite Hempty. split; [rewrite map_size_empty; lia|].
    intros handle entry Hlookup. by rewrite lookup_empty in Hlookup.
  - rewrite Hsingle. split; [by rewrite map_size_singleton|].
    intros handle entry Hlookup.
    apply lookup_singleton_Some in Hlookup as [<- <-]. by split.
Qed.

(** While the only timer is not due and the text is not edited, the timer
    stays pending and the text of the editor stays. *)
Lemma pending_stays js nlp (es : list event) (w : window) handle due callback :
  timers w = {[ handle := (due, callback) ]} →
  (clock w + elapsed es < due)%nat →
  Forall (λ e, isNotInput e = true) es →
  timers (run js nlp es w) = {[ handle := (due, callback) ]}
  ∧ editorValue (doc (run js nlp es w)) = editorValue (doc w).
Proof.
  revert w. induction es as [|e es IH]; intros w Hsingle Hearly Hkind; [done|].
  apply Forall_cons in Hkind as [He Hes]. simpl.
  destruct e as [| filePath | filePath r | ms | h]; try discriminate He.
  - destruct (IH (step js nlp (Change filePath) w)) as [-> ->]; try done.
  - destruct (IH (step js nlp (Settle filePath r) w)) as [-> ->]; try done.
    split; [done|]. simpl. apply loadWordList_settle_editor.
  - destruct (IH (step js nlp (Elapse ms) w)) as [-> ->]; try done.
    simpl in *; lia.
  - assert (step js nlp (Fire h) w = w) as ->;
      [|apply IH; [done | simpl in *; lia | done]].
    simpl. rewrite Hsingle.
    destruct (decide (h = handle)) as [-> | Hne].
    + rewrite lookup_singleton_eq.
      destruct (Nat.leb_spec due (clock w)); [simpl in *; lia | done].
    + by rewrite lookup_singleton_ne.
Qed.

(** While the only timer is not due, passing time and timer runs leave the
    page alone. *)
Lemma quiet_page js nlp (es : list event) (w : window) handle due callback :
  timers w = {[ handle := (due, callback) ]} →
  (clock w + elapsed es < due)%nat →
  Forall (λ e, isTimerEvent e = true) es →
  doc (run js nlp es w) = doc w.
Proof.
  revert w. induction es as [|e es IH]; intros w Hsingle Hearly Hkind; [done|].
  apply Forall_cons in Hkind as [He Hes]. simpl.
  destruct e as [| | | ms | h]; try discriminate He.
  - rewrite IH; [done | done | simpl in *; lia | done].
  - assert (step js nlp (Fire h) w = w) as ->;
      [|apply IH; [done | simpl in *; lia | done]].
    simpl. rewrite Hsingle.
    destruct (decide (h = handle)) as [-> | Hne].
    + rewrite lookup_singleton_eq.
      destruct (Nat.leb_spec due (clock w)); [simpl in *; lia | done].
    + by rewrite lookup_singleton_ne.
Qed.

(** X17.  After an edit the debounced check does not run before the delay
    of 750 ms has passed without another edit: as long as less time than
    that has gone by, whichever timers the browser tries to run and
    whichever loads start or settle, the timer of the edit is still
    pending and the editor holds the edited text.  A load that settles in
    that time checks the content on its own; when only time passes and
    timers are tried, the page stays as the edit left it. *)
Theorem no_check_before_delay js nlp (history es : list event) (p : page)
    (newValue : string) :
  Forall (λ e, isNotInput e = true) es →
  (elapsed es < DEBOUNCE_DELAY)%nat →
  timers (run js nlp es
            (step js nlp (Input newValue) (run js nlp history (startWindow p))))
  = {[ nextHandle (run js nlp history (startWindow p))
       := (clock (run js nlp history (startWindow p)) + DEBOUNCE_DELAY,
           afterCheck js nlp) ]}
  ∧ editorValue
      (doc (run js nlp es
              (step js nlp (Input newValue) (run js nlp history (startWindow p)))))
    = newValue
  ∧ (Forall (λ e, isTimerEvent e = true) es →
     doc (run js nlp es
            (step js nlp (Input newValue) (run js nlp history (startWindow p))))
     = setEditorValue newValue (doc (run js nlp history (startWindow p)))).
Proof.
  intros Hkind Hearly.
  pose proof (run_oneTimer js nlp history _ (startWindow_oneTimer js nlp p)) as Hone.
  rewrite step_Input by done.
  set (before := run js nlp history (startWindow p)) in *.
  destruct (pending_stays js nlp es
              (Window (setEditorValue newValue (doc before))
                 {[ nextHandle before
                    := (clock before + DEBOUNCE_DELAY, afterCheck js nlp) ]}
                 (S (nextHandle before)) (Some (nextHandle before)) (clock before))
              (nextHandle before) (clock before + DEBOUNCE_DELAY)
              (afterCheck js nlp) eq_refl)
    as [Htimers Heditor]; [simpl; lia | exact Hkind |].
  split; [exact Htimers|]. split; [exact Heditor|].
  intros Htimer. erewrite quiet_page; [done | done | simpl; lia | done].
Qed.

Lemma no_check_before_delay_witness :
  let p := Page Sample.wordList "" "" 0 false false false [] in
  doc (run Sample.asciiEngine Sample.tagger [Elapse 400; Fire 0; Elapse 349; Fire 0]
         (step Sample.asciiEngine Sample.tagger (Input "I go home.")
            (run Sample.asciiEngine Sample.tagger [] (startWindow p))))
  = Page Sample.wordList "I go home." "" 0 false false false [].
Proof.
  destruct (no_check_before_delay Sample.asciiEngine Sample.tagger []
              [Elapse 400; Fire 0; Elapse 349; Fire 0]
              (Page Sample.wordList "" "" 0 false false false []) "I go home.")
    as (_ & _ & Hpage).
  - repeat constructor.
  - unfold DEBOUNCE_DELAY. simpl. lia.
  - apply Hpage. repeat constructor.
Defined.

(** A load that settles 100 ms after the edit checks the new text at once;
    the timer of the edit is still pending. *)
Example load_settles_inside_delay :
  let p := Page ∅ "" "" 0 false false false [] in
  let w := run Sample.asciiEngine Sample.tagger
             [Input "I go home."; Elapse 100;
              Settle "wordlists/level1.json" (Responded true (Some Sample.wordList))]
             (startWindow p) in
  highlightHtml (doc w) = "Igohome." ∧ size (timers w) = 1.
Proof. split; reflexivity. Qed.

(** X18.  Once the delay has passed after the latest edit, running the
    pending timer checks the text of that edit and leaves no timer behind;
    running any other handle, such as the timer of an earlier edit, does
    nothing. *)
Theorem debounced_check_uses_latest_text js nlp (history : list event) (p : page)
    (newValue : string) (ms : nat) :
  (DEBOUNCE_DELAY ≤ ms)%nat →
  let before := run js nlp history (startWindow p) in
  let edited := step js nlp (Input newValue) before in
  doc (run js nlp [Elapse ms; Fire (nextHandle before)] edited)
  = afterCheck js nlp (setEditorValue newValue (doc before))
  ∧ timers (run js nlp [Elapse ms; Fire (nextHandle before)] edited) = ∅
  ∧ ∀ other, other ≠ nextHandle before →
      run js nlp [Elapse ms; Fire other] edited = run js nlp [Elapse ms] edited.
Proof.
  intros Hlate before edited.
  pose proof (run_oneTimer js nlp history _ (startWindow_oneTimer js nlp p)) as Hone.
  fold before in Hone. subst edited. rewrite step_Input by done.
  simpl. rewrite lookup_singleton_eq.
  destruct (Nat.leb_spec (clock before + DEBOUNCE_DELAY) (clock before + ms)); [|lia].
  simpl. split; [done|]. split; [apply delete_singleton_eq|].
  intros other Hne. by rewrite lookup_singleton_ne.
Qed.

Lemma debounced_check_uses_latest_text_witness :
  let p := Page Sample.wordList "" "" 0 false false false [] in
  let edited := step Sample.asciiEngine Sample.tagger (Input "I go home.")
                  (run Sample.asciiEngine Sample.tagger [Input "I"; Elapse 100]
                     (startWindow p)) in
  doc (run Sample.asciiEngine Sample.tagger [Elapse 750; Fire 1] edited)
  = Page Sample.wordList "I go home." "Igohome." 3 false false false [].
Proof.
  destruct (debounced_check_uses_latest_text Sample.asciiEngine Sample.tagger
              [Input "I"; Elapse 100]
              (Page Sample.wordList "" "" 0 false false false []) "I go home." 750)
    as (Hdoc & _ & _); [unfold DEBOUNCE_DELAY; lia|].
  simpl in Hdoc. exact Hdoc.
Defined.

(** ** The selector *)

Lemma populate_from_acc (config : list listInfo) (kids : list optionElement) :
  fold_left (λ kids info, kids ++ [OptionElement (file info) (name info)])%list
            config kids
  = (kids ++ ((λ info, OptionElement (file info) (name info)) <$> config))%list.
Proof.
  revert kids. induction config as [|info config IH]; intros kids; simpl.
  - by rewrite app_nil_r.
  - rewrite IH. by rewrite <- app_assoc.
Qed.

(** X19.  After [populateWordlistSelector] the selector holds one option
    per configured list, in the order of the configuration, with the file
    path as value and the name as text; options that were there before are
    gone, so running it twice gives the same options as running it once. *)
Theorem populate_lists_config (config : list listInfo) (children : list optionElement) :
  populateFrom config children
  = (λ info, OptionElement (file info) (name info)) <$> config
  ∧ populateFrom config (populateFrom config children) = populateFrom config children
  ∧ optionValue <$> populateWordlistSelector children
    = [ "wordlists/level1.json"; "wordlists/level2.json";
        "wordlists/level3.json"; "wordlists/level4.json" ].
Proof.
  assert (∀ kids, populateFrom config kids
                  = (λ info, OptionElement (file info) (name info)) <$> config) as H.
  { intros kids. unfold populateFrom. by rewrite populate_from_acc. }
  split; [apply H|]. split; [by rewrite !H | reflexivity].
Qed.

(** ** Which texts the rule for [to] applies to *)

(** X20.  Once the lemma is found, the rule for [to] is applied to the
    four texts [to], [To], [tO] and [TO] and to no other text; every other
    text, such as [too] or [to] with a space, goes to the label matcher. *)
Theorem to_rule_texts posCheck js (t : term) (allowed : list string) :
  (text t ∈ ["to"; "To"; "tO"; "TO"] →
   judgeFound posCheck js t (Array allowed) = toIsValid t (Array allowed))
  ∧ (text t ∉ ["to"; "To"; "tO"; "TO"] →
     judgeFound posCheck js t (Array allowed) = posCheck (tags t) (Array allowed)).
Proof.
  assert (text t ∈ ["to"; "To"; "tO"; "TO"] ↔ toLowerCase js (text t) = "to")
    as Hfour.
  { rewrite toLowerCase_to_iff, !elem_of_cons, elem_of_nil. tauto. }
  unfold judgeFound. cbn [truthy]. split; intros H.
  - apply Hfour in H. by rewrite H.
  - destruct (String.eqb_spec (toLowerCase js (text t)) "to") as [Hto | _]; [|done].
    by apply Hfour in Hto.
Qed.

Lemma to_rule_texts_witness :
  judgeFound isPosAllowed Sample.asciiEngine (Term "tO" ["Word"; "Verb"])
    (Array ["verb"]) = Ok false
  ∧ judgeFound isPosAllowed Sample.asciiEngine (Term "too" ["Word"; "Adverb"])
      (Array ["adverb"]) = Ok true.
Proof.
  destruct (to_rule_texts isPosAllowed Sample.asciiEngine
              (Term "tO" ["Word"; "Verb"]) ["verb"]) as [Hto _].
  destruct (to_rule_texts isPosAllowed Sample.asciiEngine
              (Term "too" ["Word"; "Adverb"]) ["adverb"]) as [_ Hother].
  split.
  - rewrite Hto; [reflexivity|]. apply includes_true; reflexivity.
  - rewrite Hother; [reflexivity|]. apply includes_false; reflexivity.
Defined.

(** ** The decisions away from the names of [Object.prototype] *)

(** X21.  For a word other than [to] whose lemma is a key of the list
    and whose allowed labels hold no name of [Object.prototype], the
    decision completes, and the word is valid exactly when some allowed
    label has a mapping entry that holds one of the word's tags. *)
Theorem safe_labels_decide js nlp (wordList : gmap string (list string)) t
    (allowed : list string) :
  isWord t = true →
  toLowerCase js (text t) ≠ "to" →
  wordList !! termLemma js nlp (text t) = Some allowed →
  (∀ userLabel, userLabel ∈ allowed → userLabel ∉ objectPrototypeNames) →
  ∃ isValid, termIsValid js nlp wordList t = Ok isValid
    ∧ (isValid = true ↔
       ∃ userLabel target tag,
         userLabel ∈ allowed ∧ posMapping !! userLabel = Some target
         ∧ tag ∈ tags t ∧ hashTag tag ∈ target).
Proof.
  intros Hword Hto Hfound Hout.
  unfold termIsValid. rewrite (termIsValid_own _ _ _ _ _ allowed) by done.
  destruct (String.eqb_spec (toLowerCase js (text t)) "to"); [done|]. simpl.
  destruct (isPosAllowedOver_safe (tags t) allowed) as (b & Hb & Hiff).
  { intros l Hin. by apply labelMatches_safe, Hout. }
  exists b. split; [done|]. rewrite Hiff. split.
  - intros (l & Hin & Hm). apply labelMatches_true in Hm as (target & tag & ? & ? & ?).
    by exists l, target, tag.
  - intros (l & target & tag & Hin & ? & ? & ?). exists l. split; [done|].
    apply labelMatches_true. by exists target, tag.
Qed.

Lemma safe_labels_decide_witness :
  ∃ isValid,
    termIsValid Sample.asciiEngine (Compromise (λ _, []) (λ _, "study"))
      Sample.wordList (Term "Studies" ["Word"; "Verb"; "PresentTense"])
    = Ok isValid
    ∧ (isValid = true ↔
       ∃ userLabel target tag,
         userLabel ∈ ["noun"; "verb"] ∧ posMapping !! userLabel = Some target
         ∧ tag ∈ ["Word"; "Verb"; "PresentTense"] ∧ hashTag tag ∈ target).
Proof.
  apply (safe_labels_decide Sample.asciiEngine (Compromise (λ _, []) (λ _, "study"))
           Sample.wordList (Term "Studies" ["Word"; "Verb"; "PresentTense"])
           ["noun"; "verb"]);
    [reflexivity | discriminate | reflexivity |].
  intros l Hin. apply list_elem_of_In in Hin. simpl in Hin.
  destruct Hin as [<- | [<- | []]]; apply includes_false; reflexivity.
Defined.

(** A lemma in the list whose labels match none of the tags: invalid. *)
Example present_but_unmatched :
  termIsValid Sample.asciiEngine Sample.tagger Sample.wordList
    (Term "home" ["Word"; "Adverb"]) = Ok false.
Proof. reflexivity. Qed.

(** X22.  For a word whose lemma is not a key of the list: when the lemma
    is not a name of [Object.prototype] the word is invalid, whatever its
    tags and text; when it is one and the text is not [to], the decision
    throws. *)
Theorem absent_lemma_decides js nlp (wordList : gmap string (list string)) t :
  isWord t = true →
  wordList !! termLemma js nlp (text t) = None →
  (termLemma js nlp (text t) ∉ objectPrototypeNames →
   termIsValid js nlp wordList t = Ok false)
  ∧ (termLemma js nlp (text t) ∈ objectPrototypeNames →
     toLowerCase js (text t) ≠ "to" →
     termIsValid js nlp wordList t = Throw).
Proof.
  intros Hword Habsent.
  unfold termIsValid. rewrite termIsValid_word by done. split.
  - intros Hout.
    assert (getProperty wordList (termLemma js nlp (text t)) = Undefined) as ->;
      [by apply getProperty_Undefined | done].
  - intros Hin Hto.
    assert (getProperty wordList (termLemma js nlp (text t)) = Inherited) as ->;
      [by apply getProperty_Inherited|].
    unfold judgeFound. cbn [truthy].
    by destruct (String.eqb_spec (toLowerCase js (text t)) "to").
Qed.

Lemma absent_lemma_decides_witness :
  termIsValid Sample.asciiEngine Sample.tagger Sample.wordList
    (Term "Tomorrow" ["Word"; "Noun"]) = Ok false
  ∧ termIsValid Sample.asciiEngine (Compromise (λ _, []) (λ w, w)) Sample.wordList
      (Term "toString" ["Word"; "Noun"]) = Throw.
Proof.
  destruct (absent_lemma_decides Sample.asciiEngine Sample.tagger Sample.wordList
              (Term "Tomorrow" ["Word"; "Noun"])) as [Hout _];
    [reflexivity | reflexivity |].
  destruct (absent_lemma_decides Sample.asciiEngine (Compromise (λ _, []) (λ w, w))
              Sample.wordList (Term "toString" ["Word"; "Noun"])) as [_ Hin];
    [reflexivity | reflexivity |].
  split.
  - apply Hout. apply includes_false; reflexivity.
  - apply Hin; [apply includes_true; reflexivity | discriminate].
Defined.

(** X23.  The loop over a document throws exactly when the decision on one
    of its terms throws; when it completes, the word count is the number
    of terms that carry [Word] and neither [Punctuation] nor [Whitespace],
    whatever the list, the tagger's lemmas and the verdicts. *)
Theorem completed_loop_counts_words js nlp (wordList : gmap string (list string)) ts :
  (checkTerms js nlp wordList ts = Throw ↔
   ∃ t, t ∈ ts ∧ termIsValid js nlp wordList t = Throw)
  ∧ ((∀ t, t ∈ ts → termIsValid js nlp wordList t ≠ Throw) →
     ∃ htmlOutput,
       checkTerms js nlp wordList ts
       = Ok (length (filter (λ t, "Word" ∈ tags t ∧ ("Punctuation" ∉ tags t)
                                  ∧ ("Whitespace" ∉ tags t)) ts),
             htmlOutput)).
Proof.
  split; [apply forEachTerm_Throw|].
  intros Hsafe. destruct (verdict_exists js nlp wordList ts Hsafe) as (verdict & Hall).
  exists (joinPieces verdict ts). unfold checkTerms.
  rewrite (forEachTerm_Ok js nlp wordList verdict ts _ Hall). simpl.
  do 2 f_equal. clear. induction ts as [|t ts IH]; [done|].
  rewrite filter_cons. simpl. destruct (isWord t) eqn:E.
  - apply isWord_true in E. rewrite decide_True by done. simpl. by rewrite IH.
  - rewrite decide_False; [done|]. intros Hp. apply isWord_true in Hp. congruence.
Qed.

(** The scenario of the specification: three words, four valid tokens. *)
Example i_go_home :
  checkContent Sample.asciiEngine Sample.tagger
    (Page Sample.wordList "I go home." "" 0 false false false [])
  = Ok (Page Sample.wordList "I go home." "Igohome." 3 false false false []).
Proof. reflexivity. Qed.

Lemma judgeFound_app js t (l extra : list string) :
  judgeFound isPosAllowed js t (Array l) = Ok true →
  judgeFound isPosAllowed js t (Array (l ++ extra)%list) = Ok true.
Proof.
  unfold judgeFound. cbn [truthy].
  destruct (String.eqb (toLowerCase js (text t)) "to").
  - destruct (toIsValid_Array t l) as (b & -> & H).
    destruct (toIsValid_Array t (l ++ extra)%list) as (b' & -> & H').
    intros [= ->]. f_equal. apply H'.
    destruct (proj1 H eq_refl) as [[? ?] | [? ?]]; [left | right];
      (split; [done|]); apply elem_of_app; by left.
  - apply isPosAllowedOver_app_true.
Qed.

(** X24.  A term that is valid when its lemma's entry is [l] is valid when
    the entry is [l] followed by further labels, whatever those are, on
    the path for [to] and on the generic path alike.  A label that matches
    one of the term's tags, added at the end of an entry that the matcher
    rejected, makes the matcher accept. *)
Theorem appended_labels_keep_valid js nlp (wordList extended : gmap string (list string))
    t (l extra : list string) :
  wordList !! termLemma js nlp (text t) = Some l →
  extended !! termLemma js nlp (text t) = Some (l ++ extra)%list →
  termIsValid js nlp wordList t = Ok true →
  termIsValid js nlp extended t = Ok true
  ∧ (∀ (rejected : list string) userLabel,
       isPosAllowed (tags t) (Array rejected) = Ok false →
       labelMatches (tags t) userLabel = Ok true →
       isPosAllowed (tags t) (Array (rejected ++ [userLabel])%list) = Ok true).
Proof.
  intros Hshort Hlong Hvalid. split.
  - revert Hvalid. unfold termIsValid, termIsValidVia.
    destruct (isWord t); [|done].
    rewrite (getProperty_own _ _ _ Hshort), (getProperty_own _ _ _ Hlong).
    apply judgeFound_app.
  - intros rejected userLabel Hrejected Hmatch. simpl in *.
    rewrite (isPosAllowedOver_app_false _ _ _ Hrejected). simpl.
    by rewrite Hmatch.
Qed.

Lemma appended_labels_keep_valid_witness :
  let t := Term "run" ["Word"; "Verb"] in
  termIsValid Sample.asciiEngine Sample.silent {[ "run" := ["noun"; "verb"] ]} t
  = Ok true
  ∧ termIsValid Sample.asciiEngine Sample.silent
      {[ "run" := ["noun"; "verb"; "constructor"; "colour"] ]} t
    = Ok true
  ∧ isPosAllowed ["Word"; "Verb"] (Array ["noun"]) = Ok false
  ∧ isPosAllowed ["Word"; "Verb"] (Array ["noun"; "do-verb"]) = Ok true.
Proof.
  destruct (appended_labels_keep_valid Sample.asciiEngine Sample.silent
              {[ "run" := ["noun"; "verb"] ]}
              {[ "run" := ["noun"; "verb"; "constructor"; "colour"] ]}
              (Term "run" ["Word"; "Verb"])
              ["noun"; "verb"] ["constructor"; "colour"])
    as [Hkept Hadded]; [reflexivity | reflexivity | reflexivity |].
  split; [reflexivity|]. split; [exact Hkept|]. split; [reflexivity|].
  apply (Hadded ["noun"] "do-verb"); reflexivity.
Defined.

(** X25.  When the request is rejected, the response is not a success or
    its body does not parse, the word list of the page is the empty table
    once [loadWordList] has settled, whatever the list and the page were
    before and at the moment the request settled. *)
Theorem failed_load_empties_list js nlp filePath (r : fetched) (p : page) :
  r = FetchRejected ∨ (∃ body, r = Responded false body) ∨ r = Responded true None →
  currentWordList (loadWordList js nlp filePath r p) = ∅
  ∧ ∀ settling, currentWordList (loadWordList_settle js nlp filePath r settling) = ∅.
Proof.
  intros Hfail.
  assert (∀ settling,
            currentWordList (loadWordList_settle js nlp filePath r settling) = ∅)
    as Hsettle.
  { intros settling. destruct Hfail as [-> | [[body ->] | ->]]; reflexivity. }
  split; [apply Hsettle | exact Hsettle].
Qed.

Lemma failed_load_empties_list_witness :
  let p := Page Sample.wordList "I go home." "Igohome." 3 false false false [] in
  currentWordList
    (loadWordList Sample.asciiEngine Sample.tagger "wordlists/level9.json"
       (Responded false None) p) = ∅.
Proof.
  destruct (failed_load_empties_list Sample.asciiEngine Sample.tagger
              "wordlists/level9.json" (Responded false None)
              (Page Sample.wordList "I go home." "Igohome." 3 false false false []))
    as [Hempty _].
  - right. left. exists None. reflexivity.
  - exact Hempty.
Defined.

(** After a failure the dialog is shown, the controls are enabled again and
    the display keeps what the last validation wrote. *)
Example failed_load_page :
  let p := Page Sample.wordList "I go home." "Igohome." 3 false false false [] in
  loadWordList Sample.asciiEngine Sample.tagger "wordlists/level2.json" FetchRejected p
  = Page ∅ "I go home." "Igohome." 3 false false false ["wordlists/level2.json"].
Proof. reflexivity. Qed.
